(** * Spotify playlist backup: a model of [main.go] and its properties

    The program is one Go file.  It obtains an OAuth2 token (from
    [token_cache.json] or through an interactive authorization-code
    flow), walks three cursor-paginated REST collections (the user's
    playlists, the tracks of each playlist, the saved tracks) and writes
    one JSON file per collection under [backups/].

    Everything the program does goes through the outside world: HTTP,
    the file system, the standard output, the logger, the process exit.
    The model threads one [World] value through the code; a Go function
    [f(args) (T, error)] becomes [f args : M (result T)].  Loops that Go
    writes as [for] become fixpoints on a fuel argument, one unit of
    fuel per iteration. *)

From Stdlib Require Import List String Ascii ZArith Lia Bool Arith.
From Stdlib Require Import DecimalString.
Import ListNotations.
Local Open Scope string_scope.
Local Open Scope list_scope.

Set Implicit Arguments.

(* ===================================================================== *)
(** ** Errors and results *)
(* ===================================================================== *)

(** A Go [error] value.  [Wrap cause msg] is [errors.Wrap(cause, msg)]
    (and [errors.Wrapf] once its format is expanded). *)
Inductive error : Type :=
| New (msg : string)
| Wrap (cause : error) (msg : string).

(** [err.Error()]: pkg/errors prints the wrapping message, a colon and
    the cause. *)
Fixpoint Error (e : error) : string :=
  match e with
  | New msg => msg
  | Wrap cause msg => msg ++ ": " ++ Error cause
  end.

(** The pair [(T, error)] a Go function returns when exactly one side
    is meaningful: [Ok v] is [(v, nil)], [Err e] is [(nil, e)]. *)
Inductive result (A : Type) : Type :=
| Ok (v : A)
| Err (e : error).
Arguments Ok {A} v.
Arguments Err {A} e.

(** [%d] of a length. *)
Definition itoa (n : nat) : string := NilZero.string_of_uint (Nat.to_uint n).

(* ===================================================================== *)
(** ** Data model (main.go, lines 31-117) *)
(* ===================================================================== *)

Record Playlist : Type := {
  Playlist_Name : string;
  Playlist_Id : string
}.

Record ExternalUrl : Type := { Spotify : string }.

Record ExternalId : Type := { Isrc : string }.

Record Image : Type := {
  Image_Height : Z;
  Image_Url : string;
  Image_Width : Z
}.

Record Artist : Type := {
  Artist_ExternalUrls : ExternalUrl;
  Artist_Href : string;
  Artist_Id : string;
  Artist_Name : string;
  Artist_Type : string;
  Artist_Uri : string
}.

Record Album : Type := {
  AlbumGroup : string;
  AlbumType : string;
  Album_Artists : list Artist;
  Album_ExternalUrls : ExternalUrl;
  Album_Href : string;
  Album_Id : string;
  Images : list Image;
  Album_Name : string;
  ReleaseDate : string;
  ReleaseDatePrecision : string;
  TotalTracks : Z;
  Album_Type : string;
  Album_Uri : string
}.

Record Track : Type := {
  Track_Album : Album;
  Track_Artists : list Artist;
  DiscNumber : Z;
  DurationMs : Z;
  Explicit : bool;
  ExternalIds : ExternalId;
  Track_ExternalUrls : ExternalUrl;
  Track_Href : string;
  Track_Id : string;
  IsLocal : bool;
  Track_Name : string;
  Popularity : Z;
  PreviewUrl : string;
  TrackNumber : Z;
  Track_Type : string;
  Track_Uri : string
}.

Record Item : Type := {
  AddedAt : string;
  Item_Track : Track
}.

Record PlaylistPage : Type := {
  PlaylistPage_Items : list Playlist;
  PlaylistPage_Href : string;
  PlaylistPage_Limit : Z;
  PlaylistPage_Next : string;
  PlaylistPage_Offset : Z;
  PlaylistPage_Previous : string;
  PlaylistPage_Total : Z
}.

Record TracksPage : Type := {
  TracksPage_Items : list Item;
  TracksPage_Href : string;
  TracksPage_Limit : Z;
  TracksPage_Next : string;
  TracksPage_Offset : Z;
  TracksPage_Previous : string;
  TracksPage_Total : Z
}.

(** [var page PlaylistPage] and [var page TracksPage]: Go's zero values. *)
Definition zero_PlaylistPage : PlaylistPage :=
  {| PlaylistPage_Items := []; PlaylistPage_Href := ""; PlaylistPage_Limit := 0;
     PlaylistPage_Next := ""; PlaylistPage_Offset := 0;
     PlaylistPage_Previous := ""; PlaylistPage_Total := 0 |}.

Definition zero_TracksPage : TracksPage :=
  {| TracksPage_Items := []; TracksPage_Href := ""; TracksPage_Limit := 0;
     TracksPage_Next := ""; TracksPage_Offset := 0;
     TracksPage_Previous := ""; TracksPage_Total := 0 |}.

(** [oauth2.Token], as far as the program touches it. *)
Record Token : Type := {
  AccessToken : string;
  TokenType : string;
  RefreshToken : string;
  Expiry : string
}.

(* ===================================================================== *)
(** ** The outside world *)
(* ===================================================================== *)

(** The bytes of a response body, known through what [json.Unmarshal]
    makes of them.  Each fetcher decodes into a freshly declared, zero
    page, so the outcome depends on the bytes alone: the page left in the
    target and the error returned ([None] for [nil]).  On a syntax error
    the decoder leaves the target untouched (the zero page); on a type
    mismatch it fills what it can and reports the first mismatch. *)
Record Data : Type := {
  as_PlaylistPage : PlaylistPage * option error;
  as_TracksPage : TracksPage * option error
}.

(** [*http.Response]: only [Body] is used; [Body] is what
    [ioutil.ReadAll(resp.Body)] returns. *)
Record Response : Type := { Body : result Data }.

(** What [client.Get] can come back with.  net/http: on error the
    response is nil, except when the redirect policy fails, where both
    the response (its body already closed) and the error are non-nil. *)
Inductive Reply : Type :=
| Served (resp : Response)
| Failed (err : error)
| RedirectFailed (resp : Response) (err : error).

(** The contents of a file the program reads or writes. *)
Inductive FileData : Type :=
| TokenJSON (t : Token)        (* json.Marshal of a token *)
| ItemsJSON (items : list Item) (* json.MarshalIndent of a []Item *)
| Corrupt.                     (* bytes that are not a JSON document *)

(** How [ioutil.WriteFile] can fail.  It opens the file with
    [O_WRONLY|O_CREATE|O_TRUNC], writes the data and closes: a failure to
    open leaves the file as it was; a failure while writing leaves a file
    that was created or emptied and holds part of the data; a failure of
    the close leaves all the data in place. *)
Inductive WriteFailure : Type :=
| OpenFailed (err : error)
| WriteFailed (err : error)
| CloseFailed (err : error).

(** The query of the request that reaches the local callback endpoint,
    or the error with which [http.ListenAndServe] gives up. *)
Inductive Inbound : Type :=
| CallbackRequest (query : list (string * string))
| ServeError (err : error).

(** The authorization URL of [conf.AuthCodeURL], kept structured: the
    endpoint and the query parameters before URL encoding, in the order
    [url.Values.Encode] emits them (sorted by key). *)
Record AuthCodeURL_t : Type := {
  endpoint : string;
  params : list (string * string)
}.

(** What the program writes out: lines and the authorization prompt on
    the standard output, and the body of its answer to the callback. *)
Inductive Output : Type :=
| Text (line : string)
| AuthPrompt (url : AuthCodeURL_t)
| CallbackBody (text : string).

Record World : Type := {
  (* the remote service behind [client.Get]: the reply to a request
     depends on the requests made before it and on its URL *)
  transport : list string -> string -> Reply;
  requests : list string;            (* URLs passed to client.Get, oldest first *)
  stdout : list Output;              (* what was written out, oldest first *)
  logged : list string;              (* log.Printf / log.Fatal lines, oldest first *)
  files : list (string * FileData);  (* the file system, latest write first *)
  write_error : string -> option WriteFailure;  (* ioutil.WriteFile failing on a path *)
  dirs : list string;                (* existing directories *)
  mkdir_error : string -> option error;   (* os.Mkdir failing on a path *)
  dotenv : result (string -> string);     (* godotenv.Load, then os.Getenv *)
  exchange : string -> result Token;      (* the provider's token endpoint *)
  exchanged : list string;           (* codes sent to the token endpoint *)
  inbound : Inbound;
  slept : list Z                     (* time.Sleep calls, in seconds *)
}.

(** How a process stops other than by returning from [main]. *)
Inductive Halt : Type :=
| Fatal           (* log.Fatal / log.Fatalf: message logged, exit status 1 *)
| Exit0           (* os.Exit(0) *)
| NilDereference. (* runtime panic: invalid memory address or nil pointer dereference *)

Inductive Run (A : Type) : Type :=
| Returns (a : A) (w : World)
| Stops (h : Halt) (w : World)
| OutOfFuel.
Arguments Returns {A} a w.
Arguments Stops {A} h w.
Arguments OutOfFuel {A}.

Definition M (A : Type) : Type := World -> Run A.

Definition ret {A} (a : A) : M A := fun w => Returns a w.

Definition bind {A B} (m : M A) (k : A -> M B) : M B := fun w =>
  match m w with
  | Returns a w' => k a w'
  | Stops h w' => Stops h w'
  | OutOfFuel => OutOfFuel
  end.

Definition stop {A} (h : Halt) : M A := fun w => Stops h w.
Definition out_of_fuel {A} : M A := fun _ => OutOfFuel.

Declare Scope go_scope.
Delimit Scope go_scope with go.
Notation "x <- m ;; k" := (bind m (fun x => k))
  (at level 61, m at next level, right associativity) : go_scope.
Notation "' p <- m ;; k" := (bind m (fun x => match x with p => k end))
  (at level 61, p pattern, m at next level, right associativity) : go_scope.
Notation "m ;; k" := (bind m (fun _ => k))
  (at level 61, right associativity) : go_scope.
Local Open Scope go_scope.

(** The world after one more effect. *)
Definition with_request (url : string) (w : World) : World :=
  {| transport := transport w; requests := requests w ++ [url];
     stdout := stdout w; logged := logged w; files := files w;
     write_error := write_error w; dirs := dirs w;
     mkdir_error := mkdir_error w; dotenv := dotenv w;
     exchange := exchange w; exchanged := exchanged w;
     inbound := inbound w; slept := slept w |}.

Definition with_output (o : Output) (w : World) : World :=
  {| transport := transport w; requests := requests w;
     stdout := stdout w ++ [o]; logged := logged w; files := files w;
     write_error := write_error w; dirs := dirs w;
     mkdir_error := mkdir_error w; dotenv := dotenv w;
     exchange := exchange w; exchanged := exchanged w;
     inbound := inbound w; slept := slept w |}.

Definition with_log (line : string) (w : World) : World :=
  {| transport := transport w; requests := requests w;
     stdout := stdout w; logged := logged w ++ [line]; files := files w;
     write_error := write_error w; dirs := dirs w;
     mkdir_error := mkdir_error w; dotenv := dotenv w;
     exchange := exchange w; exchanged := exchanged w;
     inbound := inbound w; slept := slept w |}.

Definition with_file (name : string) (d : FileData) (w : World) : World :=
  {| transport := transport w; requests := requests w;
     stdout := stdout w; logged := logged w; files := (name, d) :: files w;
     write_error := write_error w; dirs := dirs w;
     mkdir_error := mkdir_error w; dotenv := dotenv w;
     exchange := exchange w; exchanged := exchanged w;
     inbound := inbound w; slept := slept w |}.

Definition with_dir (name : string) (w : World) : World :=
  {| transport := transport w; requests := requests w;
     stdout := stdout w; logged := logged w; files := files w;
     write_error := write_error w; dirs := name :: dirs w;
     mkdir_error := mkdir_error w; dotenv := dotenv w;
     exchange := exchange w; exchanged := exchanged w;
     inbound := inbound w; slept := slept w |}.

Definition with_exchanged (code : string) (w : World) : World :=
  {| transport := transport w; requests := requests w;
     stdout := stdout w; logged := logged w; files := files w;
     write_error := write_error w; dirs := dirs w;
     mkdir_error := mkdir_error w; dotenv := dotenv w;
     exchange := exchange w; exchanged := exchanged w ++ [code];
     inbound := inbound w; slept := slept w |}.

Definition with_sleep (seconds : Z) (w : World) : World :=
  {| transport := transport w; requests := requests w;
     stdout := stdout w; logged := logged w; files := files w;
     write_error := write_error w; dirs := dirs w;
     mkdir_error := mkdir_error w; dotenv := dotenv w;
     exchange := exchange w; exchanged := exchanged w;
     inbound := inbound w; slept := slept w ++ [seconds] |}.

(* ===================================================================== *)
(** ** Library calls *)
(* ===================================================================== *)

(** [client.Get(url)]: the pair [(resp, err)] as Go returns it.  The
    client of line 318 carries the token and may renew it with the
    provider inside this call; that traffic is the library's and is not
    recorded here ([exchanged] lists the calls of [conf.Exchange] only).
    A renewal that fails shows as a [Failed] reply. *)
Definition client_Get (url : string) : M (option Response * option error) := fun w =>
  let w' := with_request url w in
  match transport w (requests w) url with
  | Served resp => Returns (Some resp, None) w'
  | Failed err => Returns (None, Some err) w'
  | RedirectFailed resp err => Returns (Some resp, Some err) w'
  end.

(** [resp.Body.Close()]: dereferences [resp]. *)
Definition Body_Close (resp : option Response) : M unit :=
  match resp with
  | Some _ => ret tt
  | None => stop NilDereference
  end.

(** [ioutil.ReadAll(resp.Body)]: dereferences [resp]. *)
Definition ioutil_ReadAll (resp : option Response) : M (result Data) :=
  match resp with
  | Some r => ret (Body r)
  | None => stop NilDereference
  end.

(** [json.Unmarshal(data, &page)] on a zero page. *)
Definition json_Unmarshal_PlaylistPage (data : Data) : PlaylistPage * option error :=
  as_PlaylistPage data.

Definition json_Unmarshal_TracksPage (data : Data) : TracksPage * option error :=
  as_TracksPage data.

Definition fmt_Printf (line : string) : M unit := fun w =>
  Returns tt (with_output (Text line) w).

Definition log_Printf (line : string) : M unit := fun w =>
  Returns tt (with_log line w).

Definition log_Fatal {A} (line : string) : M A := fun w =>
  Stops Fatal (with_log line w).

Definition os_Exit0 {A} : M A := stop Exit0.

Definition time_Sleep (seconds : Z) : M unit := fun w =>
  Returns tt (with_sleep seconds w).

(** [ioutil.WriteFile(name, data, perm)].  A strict part of a JSON
    document is not a JSON document, so what a failed write leaves is
    [Corrupt]. *)
Definition ioutil_WriteFile (name : string) (d : FileData) : M (option error) := fun w =>
  match write_error w name with
  | Some (OpenFailed e) => Returns (Some e) w
  | Some (WriteFailed e) => Returns (Some e) (with_file name Corrupt w)
  | Some (CloseFailed e) => Returns (Some e) (with_file name d w)
  | None => Returns None (with_file name d w)
  end.

(** [ioutil.ReadFile(name)]. *)
Fixpoint lookup_file (name : string) (fs : list (string * FileData)) : option FileData :=
  match fs with
  | [] => None
  | (n, d) :: rest => if String.eqb n name then Some d else lookup_file name rest
  end.

Definition ioutil_ReadFile (name : string) : M (result FileData) := fun w =>
  match lookup_file name (files w) with
  | Some d => Returns (Ok d) w
  | None => Returns (Err (New ("open " ++ name ++ ": no such file or directory"))) w
  end.

(* ===================================================================== *)
(** ** Constants (main.go, lines 20-29) *)
(* ===================================================================== *)

Definition authURL : string := "https://accounts.spotify.com/authorize".
Definition tokenURL : string := "https://accounts.spotify.com/api/token".
Definition baseAPIAddress : string := "https://api.spotify.com".
Definition redirectURL : string := "http://localhost:8080/callback".
Definition scopes : list string := ["playlist-read-private"; "user-library-read"].

(* ===================================================================== *)
(** ** The three fetchers (main.go, lines 182-265) *)
(* ===================================================================== *)

(** [for nextPageUrl != "" { ... }] of [fetchPlaylists]. *)
Fixpoint fetchPlaylists_loop (fuel : nat) (playlists : list Playlist)
    (nextPageUrl : string) : M (result (list Playlist)) :=
  if String.eqb nextPageUrl "" then ret (Ok playlists) else
  match fuel with
  | O => out_of_fuel
  | S fuel =>
    '(resp, err) <- client_Get nextPageUrl ;;
    match err with
    | Some err =>
        Body_Close resp ;;
        ret (Err (Wrap err "failed to fetch playlists"))
    | None =>
        r <- ioutil_ReadAll resp ;;
        match r with
        | Err err => ret (Err (Wrap err "failed to read playlists response"))
        | Ok data =>
            let '(page, _) := json_Unmarshal_PlaylistPage data in
            let playlists := playlists ++ PlaylistPage_Items page in
            fmt_Printf ("Fetched " ++ itoa (List.length playlists) ++ " playlists\n") ;;
            fetchPlaylists_loop fuel playlists (PlaylistPage_Next page)
        end
    end
  end.

Definition fetchPlaylists_url : string :=
  baseAPIAddress ++ "/v1/me/playlists?offset=0&limit=" ++ itoa 50.

Definition fetchPlaylists (fuel : nat) : M (result (list Playlist)) :=
  fetchPlaylists_loop fuel [] fetchPlaylists_url.

(** [for nextPageUrl != "" { ... }] of [fetchPlaylistTracks]. *)
Fixpoint fetchPlaylistTracks_loop (fuel : nat) (playlist : Playlist)
    (tracks : list Item) (nextPageUrl : string) : M (result (list Item)) :=
  if String.eqb nextPageUrl "" then ret (Ok tracks) else
  match fuel with
  | O => out_of_fuel
  | S fuel =>
    '(resp, err) <- client_Get nextPageUrl ;;
    match err with
    | Some err =>
        Body_Close resp ;;
        ret (Err (Wrap err ("failed to fetch tracks for playlist "
                              ++ Playlist_Name playlist)))
    | None =>
        r <- ioutil_ReadAll resp ;;
        match r with
        | Err err =>
            Body_Close resp ;;
            ret (Err (Wrap err "failed to read tracks response"))
        | Ok data =>
            let '(page, _) := json_Unmarshal_TracksPage data in
            let tracks := tracks ++ TracksPage_Items page in
            fmt_Printf ("Fetched " ++ itoa (List.length (TracksPage_Items page))
                        ++ " tracks for playlist " ++ Playlist_Name playlist
                        ++ ". Total tracks: " ++ itoa (List.length tracks) ++ "\n") ;;
            fetchPlaylistTracks_loop fuel playlist tracks (TracksPage_Next page)
        end
    end
  end.

Definition fetchPlaylistTracks_url (playlist : Playlist) : string :=
  baseAPIAddress ++ "/v1/playlists/" ++ Playlist_Id playlist
                 ++ "/tracks?offset=0&limit=" ++ itoa 100.

Definition fetchPlaylistTracks (fuel : nat) (playlist : Playlist)
    : M (result (list Item)) :=
  fetchPlaylistTracks_loop fuel playlist [] (fetchPlaylistTracks_url playlist).

(** The page size [fetchSavedTracks] asks for. *)
Definition savedTracks_limit : nat := 50.

(** [for { ... }] of [fetchSavedTracks]: the only way out is the short
    page test or an error. *)
Fixpoint fetchSavedTracks_loop (fuel : nat) (tracks : list Item)
    (nextPageUrl : string) : M (result (list Item)) :=
  match fuel with
  | O => out_of_fuel
  | S fuel =>
    '(resp, err) <- client_Get nextPageUrl ;;
    match err with
    | Some err => ret (Err (Wrap err "failed to fetch saved tracks"))
    | None =>
        r <- ioutil_ReadAll resp ;;
        match r with
        | Err err =>
            Body_Close resp ;;
            ret (Err (Wrap err "failed to read saved tracks response"))
        | Ok data =>
            let '(savedTracksPage, _) := json_Unmarshal_TracksPage data in
            let tracks := tracks ++ TracksPage_Items savedTracksPage in
            if Nat.ltb (List.length (TracksPage_Items savedTracksPage)) savedTracks_limit
            then ret (Ok tracks)
            else
              fmt_Printf ("Fetched " ++ itoa (List.length tracks) ++ " saved tracks\n") ;;
              Body_Close resp ;;
              fetchSavedTracks_loop fuel tracks (TracksPage_Next savedTracksPage)
        end
    end
  end.

Definition fetchSavedTracks_url : string :=
  baseAPIAddress ++ "/v1/me/tracks?offset=0&limit=" ++ itoa savedTracks_limit.

Definition fetchSavedTracks (fuel : nat) : M (result (list Item)) :=
  fetchSavedTracks_loop fuel [] fetchSavedTracks_url.

(* ===================================================================== *)
(** ** File names (main.go, lines 281-284) *)
(* ===================================================================== *)

(** Go strings are byte strings, and so are Rocq's.  The class
    [[a-zA-Z0-9_]] is ASCII and every byte of a multi-byte UTF-8 rune (as
    well as every stray byte) is at least 128, so a run of runs outside
    the class is exactly a run of bytes outside it: the byte-level
    reading below is the rune-level one of Go's regexp. *)
Definition in_class (c : ascii) : bool :=
  let n := nat_of_ascii c in
  (((97 <=? n) && (n <=? 122)) || ((65 <=? n) && (n <=? 90))
  || ((48 <=? n) && (n <=? 57)) || (n =? 95))%nat.

(** [regexp.MustCompile(`[^a-zA-Z0-9_]+`).ReplaceAllString(s, "-")]:
    scanning left to right, a byte of the class is copied; a byte outside
    it starts a match, which greedily takes every following byte outside
    the class and is replaced by one hyphen.  [in_match] says that the
    previous byte belonged to a match. *)
Fixpoint ReplaceAllString_from (in_match : bool) (s : string) : string :=
  match s with
  | EmptyString => EmptyString
  | String c rest =>
      if in_class c then String c (ReplaceAllString_from false rest)
      else if in_match then ReplaceAllString_from true rest
      else String "-" (ReplaceAllString_from true rest)
  end.

Definition ReplaceAllString (s : string) : string := ReplaceAllString_from false s.

(** The elements of a path between its separators: ["a//b"] has the
    elements ["a"], [""], ["b"]. *)
Fixpoint path_elements (path : string) : list string :=
  match path with
  | EmptyString => [EmptyString]
  | String c rest =>
      if Ascii.eqb c "/" then EmptyString :: path_elements rest
      else match path_elements rest with
           | e :: es => String c e :: es
           | [] => [String c EmptyString]
           end
  end.

(** One step of the loop of [filepath.Clean]: [out] holds the elements
    written so far, last first.  Empty and [.] elements are dropped; [..]
    removes the last real element when there is one, is kept on a
    relative path otherwise and dropped on a rooted one. *)
Definition clean_step (rooted : bool) (out : list string) (e : string) : list string :=
  if String.eqb e "" then out
  else if String.eqb e "." then out
  else if String.eqb e ".." then
    match out with
    | top :: below => if String.eqb top ".." then ".." :: out else below
    | [] => if rooted then out else [".."]
    end
  else e :: out.

(** [filepath.Clean] on a system whose separator is [/] (no volume
    names): the library function, element by element. *)
Definition filepath_Clean (path : string) : string :=
  let rooted := match path with
                | String c _ => Ascii.eqb c "/"
                | EmptyString => false
                end in
  let out := fold_left (clean_step rooted) (path_elements path) [] in
  let cleaned := ((if rooted then "/" else "") ++ String.concat "/" (rev out))%string in
  if String.eqb cleaned "" then "." else cleaned.

(** [safeFilename] of [saveJSONToFile]. *)
Definition safeFilename (name : string) : string :=
  let cleanedFilename := filepath_Clean name in
  ReplaceAllString cleanedFilename.

(** [filename] of [saveJSONToFile]. *)
Definition backup_filename (name : string) : string :=
  "backups" ++ "/" ++ safeFilename name ++ ".json".

(** The rule of the specification, in its words: cut the name into its
    maximal runs of bytes inside and outside the class, keep the former
    and put one hyphen for each of the latter. *)
Fixpoint maximal_runs (s : string) : list (bool * string) :=
  match s with
  | EmptyString => []
  | String c rest =>
      match maximal_runs rest with
      | (b, r) :: runs =>
          if Bool.eqb b (in_class c) then (b, String c r) :: runs
          else (in_class c, String c EmptyString) :: (b, r) :: runs
      | [] => [(in_class c, String c EmptyString)]
      end
  end.

Definition render_runs (runs : list (bool * string)) : string :=
  String.concat "" (map (fun br : bool * string => if fst br then snd br else "-") runs).

Definition collapse_runs (s : string) : string := render_runs (maximal_runs s).

(** Whether a name contains the path separator. *)
Fixpoint has_slash (s : string) : bool :=
  match s with
  | EmptyString => false
  | String c rest => Ascii.eqb c "/" || has_slash rest
  end.

(* ===================================================================== *)
(** ** Backup writer (main.go, lines 267-289) *)
(* ===================================================================== *)

(** [os.Stat(name)] followed by [os.IsNotExist(err)]. *)
Definition os_Stat_IsNotExist (name : string) : M bool := fun w =>
  Returns (negb (existsb (String.eqb name) (dirs w))) w.

Definition os_Mkdir (name : string) : M (option error) := fun w =>
  match mkdir_error w name with
  | Some e => Returns (Some e) w
  | None => Returns None (with_dir name w)
  end.

(** [saveJSONToFile(name, data)].  Every call passes a [[]Item], which
    [json.MarshalIndent] always encodes. *)
Definition saveJSONToFile (name : string) (data : list Item) : M unit :=
  let jsonData := ItemsJSON data in
  let backupFolder := "backups" in
  missing <- os_Stat_IsNotExist backupFolder ;;
  (if missing : bool then
     err <- os_Mkdir backupFolder ;;
     match err with
     | Some err => log_Fatal ("Error creating backups folder: " ++ Error err)
     | None => ret tt
     end
   else ret tt) ;;
  let filename := backup_filename name in
  err <- ioutil_WriteFile filename jsonData ;;
  match err with
  | Some err => log_Fatal ("Error writing JSON data to file: " ++ Error err)
  | None => ret tt
  end.

(* ===================================================================== *)
(** ** Token store (main.go, lines 155-180) *)
(* ===================================================================== *)

(** [json.Unmarshal(file, &token)]. *)
Definition json_Unmarshal_Token (file : FileData) : result Token :=
  match file with
  | TokenJSON t => Ok t
  | ItemsJSON _ =>
      Err (New "json: cannot unmarshal array into Go value of type oauth2.Token")
  | Corrupt => Err (New "invalid character looking for beginning of value")
  end.

Definition loadToken : M (result Token) :=
  r <- ioutil_ReadFile "token_cache.json" ;;
  match r with
  | Err err => ret (Err (Wrap err "failed to read token cache file"))
  | Ok file =>
      match json_Unmarshal_Token file with
      | Err err => ret (Err (Wrap err "failed to unmarshal token"))
      | Ok token => ret (Ok token)
      end
  end.

Definition saveToken (token : Token) : M unit :=
  err <- ioutil_WriteFile "token_cache.json" (TokenJSON token) ;;
  match err with
  | Some err => log_Fatal ("Error saving token cache: " ++ Error err)
  | None => ret tt
  end.

(* ===================================================================== *)
(** ** Authenticator (main.go, lines 121-153) *)
(* ===================================================================== *)

(** [oauth2.Config]. *)
Record Config : Type := {
  ClientID : string;
  ClientSecret : string;
  RedirectURL : string;
  Scopes : list string;
  Endpoint_AuthURL : string;
  Endpoint_TokenURL : string
}.

(** [conf.AuthCodeURL(state)]: the library sets [response_type] and
    [client_id] always, the other three when they are not empty, joins
    the scopes with a space, and encodes the values sorted by key. *)
Definition AuthCodeURL (conf : Config) (state : string) : AuthCodeURL_t :=
  {| endpoint := Endpoint_AuthURL conf;
     params :=
       [("client_id", ClientID conf)]
       ++ (if String.eqb (RedirectURL conf) "" then []
           else [("redirect_uri", RedirectURL conf)])
       ++ [("response_type", "code")]
       ++ (match Scopes conf with
           | [] => []
           | _ => [("scope", String.concat " " (Scopes conf))]
           end)
       ++ (if String.eqb state "" then [] else [("state", state)]) |}.

(** [query.Get(key)]: the first value of the key, or the empty string. *)
Fixpoint query_Get (query : list (string * string)) (key : string) : string :=
  match query with
  | [] => ""
  | (k, v) :: rest => if String.eqb k key then v else query_Get rest key
  end.

(** [conf.Exchange(ctx, code)]. *)
Definition conf_Exchange (code : string) : M (result Token) := fun w =>
  Returns (exchange w code) (with_exchanged code w).

(** The handler registered on [/callback], closed over [state].  Every
    path through it ends the process. *)
Definition callback {A} (state : string) (query : list (string * string)) : M A :=
  let code := query_Get query "code" in
  let receivedState := query_Get query "state" in
  (if negb (String.eqb state receivedState)
   then log_Fatal ("Invalid state received: " ++ receivedState)
   else ret tt) ;;
  r <- conf_Exchange code ;;
  match r with
  | Err err => log_Fatal ("Error exchanging authorization code: " ++ Error err)
  | Ok token =>
      saveToken token ;;
      (fun w => Returns tt
         (with_output (CallbackBody "Authorization successful. You can close this window.") w)) ;;
      os_Exit0
  end.

(** [oauthFlow(ctx, conf)].  [http.ListenAndServe] blocks until the
    callback arrives, whose handler ends the process, or fails, which
    [log.Fatal] reports: the final [return nil] is never reached. *)
Definition oauthFlow (conf : Config) : M Token :=
  let state := "random-string-for-state-check" in
  let url := AuthCodeURL conf state in
  (fun w => Returns tt (with_output (AuthPrompt url) w)) ;;
  fun w =>
    match inbound w with
    | CallbackRequest query => callback state query w
    | ServeError err => log_Fatal (Error err) w
    end.

Definition final_world {A} (r : Run A) : option World :=
  match r with
  | Returns _ w => Some w
  | Stops _ w => Some w
  | OutOfFuel => None
  end.

(** The authorization URL a run presented last, read off what the run
    wrote out, and the [state] parameter of that URL. *)
Fixpoint last_prompt (newest_first : list Output) : option AuthCodeURL_t :=
  match newest_first with
  | [] => None
  | AuthPrompt url :: _ => Some url
  | _ :: older => last_prompt older
  end.

Definition presented_url {A} (r : Run A) : option AuthCodeURL_t :=
  match final_world r with
  | Some w => last_prompt (rev (stdout w))
  | None => None
  end.

Definition issued_state {A} (r : Run A) : option string :=
  option_map (fun url => query_Get (params url) "state") (presented_url r).

(** What a run gave back, how it stopped, and what it asked the service. *)
Definition returned {A} (r : Run A) : option A :=
  match r with
  | Returns a _ => Some a
  | _ => None
  end.

Definition halted {A} (r : Run A) : option Halt :=
  match r with
  | Stops h _ => Some h
  | _ => None
  end.

Definition requests_of {A} (r : Run A) : list string :=
  match final_world r with
  | Some w => requests w
  | None => []
  end.

(* ===================================================================== *)
(** ** Orchestration (main.go, lines 291-345) *)
(* ===================================================================== *)

Definition godotenv_Load : M (option error) := fun w =>
  Returns (match dotenv w with Err e => Some e | Ok _ => None end) w.

Definition os_Getenv (key : string) : M string := fun w =>
  Returns (match dotenv w with Ok env => env key | Err _ => "" end) w.

(** [for _, p := range playlists { ... }] of [main]. *)
Fixpoint main_range (fuel : nat) (playlists : list Playlist) : M unit :=
  match playlists with
  | [] => ret tt
  | p :: rest =>
      r <- fetchPlaylistTracks fuel p ;;
      match r with
      | Err err =>
          log_Printf ("Error fetching tracks for playlist " ++ Playlist_Name p
                      ++ ": " ++ Error err) ;;
          main_range fuel rest
      | Ok tracks =>
          saveJSONToFile (Playlist_Name p) tracks ;;
          time_Sleep 2 ;;
          main_range fuel rest
      end
  end.

(** Lines 320-344 of [main]: what runs once the client exists. *)
Definition main_backup (fuel : nat) : M unit :=
  r <- fetchPlaylists fuel ;;
  match r with
  | Err err => log_Fatal ("Error fetching playlists: " ++ Error err)
  | Ok playlists =>
      main_range fuel playlists ;;
      r <- fetchSavedTracks fuel ;;
      match r with
      | Err err => log_Fatal ("Error fetching saved tracks: " ++ Error err)
      | Ok savedTracks => saveJSONToFile "saved_tracks" savedTracks
      end
  end.

(** [main()].  [conf.Client(ctx, token)] is the client whose requests
    [transport] answers. *)
Definition main (fuel : nat) : M unit :=
  err <- godotenv_Load ;;
  match err with
  | Some _ => log_Fatal "Error loading .env file"
  | None =>
      id <- os_Getenv "SPOTIFY_CLIENT_ID" ;;
      secret <- os_Getenv "SPOTIFY_CLIENT_SECRET" ;;
      let conf := {| ClientID := id; ClientSecret := secret;
                     RedirectURL := redirectURL; Scopes := scopes;
                     Endpoint_AuthURL := authURL;
                     Endpoint_TokenURL := tokenURL |} in
      r <- loadToken ;;
      _ <- match r with
           | Ok token => ret token
           | Err _ =>
               token <- oauthFlow conf ;;
               saveToken token ;;
               ret token
           end ;;
      main_backup fuel
  end.

(* ===================================================================== *)
(** ** Walks over a paginated collection *)
(* ===================================================================== *)

Section Walk.

(** The page type of an endpoint, what [json.Unmarshal] leaves in a
    zero page of that type, and the page's cursor. *)
Variable P : Type.
Variable decode : Data -> P * option error.
Variable next : P -> string.

(** [serves t hist url pages]: after the requests [hist], the service
    [t] answers the request for [url] with a readable body in which the
    decoder finds the first page, the request for that page's cursor
    with the second page, and so on down the list. *)
Fixpoint serves (t : list string -> string -> Reply) (hist : list string)
    (url : string) (pages : list P) : Prop :=
  match pages with
  | [] => True
  | p :: rest =>
      (exists d, t hist url = Served {| Body := Ok d |} /\ fst (decode d) = p)
      /\ serves t (hist ++ [url]) (next p) rest
  end.

(** The URLs such a walk asks for: the start, then each cursor but the
    last page's. *)
Fixpoint walk_urls (url : string) (pages : list P) : list string :=
  match pages with
  | [] => []
  | p :: rest => url :: walk_urls (next p) rest
  end.

(** The cursors lead from [url] through all of [pages] and end there:
    [url] and every cursor but the last are non-empty, the last is. *)
Fixpoint chained (url : string) (pages : list P) : Prop :=
  match pages with
  | [] => url = ""
  | p :: rest => url <> "" /\ chained (next p) rest
  end.

End Walk.

(** The items of a list of pages, in order. *)
Definition all_playlists (pages : list PlaylistPage) : list Playlist :=
  List.concat (map PlaylistPage_Items pages).

Definition all_tracks (pages : list TracksPage) : list Item :=
  List.concat (map TracksPage_Items pages).

(** What one walk leaves untouched in the world, and what it adds. *)
Definition same_outside (w w' : World) : Prop :=
  transport w' = transport w /\ files w' = files w /\ logged w' = logged w
  /\ dirs w' = dirs w /\ exchanged w' = exchanged w /\ slept w' = slept w
  /\ write_error w' = write_error w /\ mkdir_error w' = mkdir_error w.

(** A page of saved tracks is short when it holds fewer items than the
    limit the request asked for. *)
Definition short_page (p : TracksPage) : bool :=
  Nat.ltb (List.length (TracksPage_Items p)) savedTracks_limit.

(* ===================================================================== *)
(** ** Fixture providers *)
(* ===================================================================== *)

Definition zero_ExternalUrl : ExternalUrl := {| Spotify := "" |}.

Definition zero_Album : Album :=
  {| AlbumGroup := ""; AlbumType := ""; Album_Artists := [];
     Album_ExternalUrls := zero_ExternalUrl; Album_Href := ""; Album_Id := "";
     Images := []; Album_Name := ""; ReleaseDate := "";
     ReleaseDatePrecision := ""; TotalTracks := 0; Album_Type := "";
     Album_Uri := "" |}.

Definition zero_Track : Track :=
  {| Track_Album := zero_Album; Track_Artists := []; DiscNumber := 0;
     DurationMs := 0; Explicit := false; ExternalIds := {| Isrc := "" |};
     Track_ExternalUrls := zero_ExternalUrl; Track_Href := ""; Track_Id := "";
     IsLocal := false; Track_Name := ""; Popularity := 0; PreviewUrl := "";
     TrackNumber := 0; Track_Type := ""; Track_Uri := "" |}.

Definition zero_Item : Item := {| AddedAt := ""; Item_Track := zero_Track |}.

Definition zero_Playlist : Playlist := {| Playlist_Name := ""; Playlist_Id := "" |}.

(** An item known by the name of its track. *)
Definition song (name : string) : Item :=
  {| AddedAt := "2023-05-01T00:00:00Z";
     Item_Track :=
       {| Track_Album := zero_Album; Track_Artists := []; DiscNumber := 1;
          DurationMs := 180000; Explicit := false; ExternalIds := {| Isrc := "" |};
          Track_ExternalUrls := zero_ExternalUrl; Track_Href := ""; Track_Id := name;
          IsLocal := false; Track_Name := name; Popularity := 0; PreviewUrl := "";
          TrackNumber := 1; Track_Type := "track"; Track_Uri := "" |} |}.

(** The body that encodes a page of playlists.  Read as a page of
    tracks it has the same envelope; its items carry none of the keys of
    an [Item] and decode to zero items. *)
Definition playlists_json (p : PlaylistPage) : Data :=
  {| as_PlaylistPage := (p, None);
     as_TracksPage :=
       ({| TracksPage_Items := map (fun _ => zero_Item) (PlaylistPage_Items p);
           TracksPage_Href := PlaylistPage_Href p;
           TracksPage_Limit := PlaylistPage_Limit p;
           TracksPage_Next := PlaylistPage_Next p;
           TracksPage_Offset := PlaylistPage_Offset p;
           TracksPage_Previous := PlaylistPage_Previous p;
           TracksPage_Total := PlaylistPage_Total p |}, None) |}.

(** The body that encodes a page of tracks, and its reading as a page of
    playlists. *)
Definition tracks_json (p : TracksPage) : Data :=
  {| as_PlaylistPage :=
       ({| PlaylistPage_Items := map (fun _ => zero_Playlist) (TracksPage_Items p);
           PlaylistPage_Href := TracksPage_Href p;
           PlaylistPage_Limit := TracksPage_Limit p;
           PlaylistPage_Next := TracksPage_Next p;
           PlaylistPage_Offset := TracksPage_Offset p;
           PlaylistPage_Previous := TracksPage_Previous p;
           PlaylistPage_Total := TracksPage_Total p |}, None);
     as_TracksPage := (p, None) |}.

(** A body that is not JSON (an HTML error page, say): the decoder
    reports a syntax error and leaves its target as it was. *)
Definition syntax_error : error :=
  New "invalid character '<' looking for beginning of value".

Definition not_json : Data :=
  {| as_PlaylistPage := (zero_PlaylistPage, Some syntax_error);
     as_TracksPage := (zero_TracksPage, Some syntax_error) |}.

Definition playlist_page (items : list Playlist) (next : string) : PlaylistPage :=
  {| PlaylistPage_Items := items; PlaylistPage_Href := ""; PlaylistPage_Limit := 50;
     PlaylistPage_Next := next; PlaylistPage_Offset := 0;
     PlaylistPage_Previous := ""; PlaylistPage_Total := 3 |}.

Definition tracks_page (items : list Item) (next : string) : TracksPage :=
  {| TracksPage_Items := items; TracksPage_Href := ""; TracksPage_Limit := 50;
     TracksPage_Next := next; TracksPage_Offset := 0;
     TracksPage_Previous := ""; TracksPage_Total := 0 |}.

Definition ok (d : Data) : Reply := Served {| Body := Ok d |}.

(** A world in which nothing has happened yet, around a service [t]:
    an empty file system on which every write succeeds, a cached token
    when [token] gives one, and the callback [cb] waiting. *)
Definition fresh_world (t : list string -> string -> Reply)
    (token : option Token) (cb : Inbound) : World :=
  {| transport := t; requests := []; stdout := []; logged := [];
     files := match token with
              | Some tok => [("token_cache.json", TokenJSON tok)]
              | None => []
              end;
     write_error := fun _ => None; dirs := []; mkdir_error := fun _ => None;
     dotenv := Ok (fun key => if String.eqb key "SPOTIFY_CLIENT_ID" then "client-id"
                              else if String.eqb key "SPOTIFY_CLIENT_SECRET" then "secret"
                              else "");
     exchange := fun code => if String.eqb code "good-code"
                             then Ok {| AccessToken := "access"; TokenType := "Bearer";
                                        RefreshToken := "refresh"; Expiry := "later" |}
                             else Err (New "oauth2: cannot fetch token: 400 Bad Request");
     exchanged := []; inbound := cb; slept := [] |}.

Definition cached_token : Token :=
  {| AccessToken := "cached"; TokenType := "Bearer";
     RefreshToken := "refresh"; Expiry := "later" |}.

Definition no_callback : Inbound :=
  ServeError (New "listen tcp :8080: bind: address already in use").

Definition rock : Playlist := {| Playlist_Name := "Rock / Metal"; Playlist_Id := "p1" |}.
Definition jazz : Playlist := {| Playlist_Name := "Jazz"; Playlist_Id := "p2" |}.
Definition folk : Playlist := {| Playlist_Name := "Folk"; Playlist_Id := "p3" |}.

Definition playlists_page2_url : string :=
  "https://api.spotify.com/v1/me/playlists?offset=50&limit=50".
Definition rock_page2_url : string :=
  "https://api.spotify.com/v1/playlists/p1/tracks?offset=100&limit=100".
Definition saved_page2_url : string :=
  "https://api.spotify.com/v1/me/tracks?offset=50&limit=50".
Definition saved_page3_url : string :=
  "https://api.spotify.com/v1/me/tracks?offset=100&limit=50".

Definition playlists_page1 : PlaylistPage := playlist_page [rock; jazz] playlists_page2_url.
Definition playlists_page2 : PlaylistPage := playlist_page [folk] "".
Definition rock_page1 : TracksPage := tracks_page [song "a"] rock_page2_url.
Definition rock_page2 : TracksPage := tracks_page [song "b"; song "c"] "".
Definition folk_page1 : TracksPage := tracks_page [song "d"] "".
Definition fifty_songs : list Item := repeat (song "s") 50.
Definition saved_page1 : TracksPage := tracks_page fifty_songs saved_page2_url.
Definition saved_page2 : TracksPage := tracks_page [song "y"; song "z"] saved_page3_url.

Definition too_many_redirects : error := New "stopped after 10 redirects".
Definition connection_reset : error := New "read tcp: connection reset by peer".
Definition unsupported_scheme : error := New "unsupported protocol scheme".

(** A provider with three playlists on two pages; the tracks of the
    first on two pages, a redirect loop for the tracks of the second, one
    page for the third; and the saved tracks on a full page followed by a
    short page that still carries a cursor. *)
Definition provider (hist : list string) (url : string) : Reply :=
  if String.eqb url fetchPlaylists_url then ok (playlists_json playlists_page1)
  else if String.eqb url playlists_page2_url then ok (playlists_json playlists_page2)
  else if String.eqb url (fetchPlaylistTracks_url rock) then ok (tracks_json rock_page1)
  else if String.eqb url rock_page2_url then ok (tracks_json rock_page2)
  else if String.eqb url (fetchPlaylistTracks_url jazz)
       then RedirectFailed {| Body := Err (New "http: read on closed response body") |}
                           too_many_redirects
  else if String.eqb url (fetchPlaylistTracks_url folk) then ok (tracks_json folk_page1)
  else if String.eqb url fetchSavedTracks_url then ok (tracks_json saved_page1)
  else if String.eqb url saved_page2_url then ok (tracks_json saved_page2)
  else Failed unsupported_scheme.

Definition provider_world : World := fresh_world provider (Some cached_token) no_callback.

(** The same provider losing the connection on every request after the
    first of a run. *)
Definition flaky_provider (hist : list string) (url : string) : Reply :=
  match hist with
  | [] => provider hist url
  | _ :: _ => Failed connection_reset
  end.

Definition flaky_world : World := fresh_world flaky_provider (Some cached_token) no_callback.

(** The same provider answering every request after the first of a run
    with a page that is not JSON. *)
Definition garbling_provider (hist : list string) (url : string) : Reply :=
  match hist with
  | [] => provider hist url
  | _ :: _ => ok not_json
  end.

Definition garbling_world : World :=
  fresh_world garbling_provider (Some cached_token) no_callback.

(** A library of exactly fifty saved tracks: one full page, whose cursor
    is empty.  A request for the empty URL never leaves the client:
    net/http refuses it. *)
Definition fifty_provider (hist : list string) (url : string) : Reply :=
  if String.eqb url fetchSavedTracks_url then ok (tracks_json (tracks_page fifty_songs ""))
  else Failed unsupported_scheme.

Definition fifty_world : World := fresh_world fifty_provider (Some cached_token) no_callback.

(** A provider whose bodies break off while they are read. *)
Definition unreadable_provider (hist : list string) (url : string) : Reply :=
  Served {| Body := Err (New "unexpected EOF") |}.

Definition unreadable_world : World :=
  fresh_world unreadable_provider (Some cached_token) no_callback.

(** The provider of above with its saved-tracks endpoint down. *)
Definition saved_down_provider (hist : list string) (url : string) : Reply :=
  if String.eqb url fetchSavedTracks_url then Failed connection_reset
  else provider hist url.

Definition saved_down_world : World :=
  fresh_world saved_down_provider (Some cached_token) no_callback.

(** The provider of above losing the connection on the first request
    for the tracks of the first playlist. *)
Definition lost_tracks_provider (hist : list string) (url : string) : Reply :=
  if String.eqb url (fetchPlaylistTracks_url rock) then Failed connection_reset
  else provider hist url.

Definition lost_tracks_world : World :=
  fresh_world lost_tracks_provider (Some cached_token) no_callback.

(** The provider of above answering the request for the tracks of the
    first playlist with a page that is not JSON. *)
Definition garbled_tracks_provider (hist : list string) (url : string) : Reply :=
  if String.eqb url (fetchPlaylistTracks_url rock) then ok not_json
  else provider hist url.

Definition garbled_tracks_world : World :=
  fresh_world garbled_tracks_provider (Some cached_token) no_callback.

(** Two first runs, without a cached token.  In the one the provider
    redirects back with the code and the state it was given; in the other
    the callback carries a state of somebody else's making. *)
Definition honest_callback : Inbound :=
  CallbackRequest [("code", "good-code"); ("state", "random-string-for-state-check")].

Definition forged_callback : Inbound :=
  CallbackRequest [("code", "good-code"); ("state", "forged")].

Definition honest_run : World := fresh_world provider None honest_callback.
Definition forged_run : World := fresh_world provider None forged_callback.

(** The configuration [main] builds from the environment. *)
Definition main_conf (env : string -> string) : Config :=
  {| ClientID := env "SPOTIFY_CLIENT_ID";
     ClientSecret := env "SPOTIFY_CLIENT_SECRET";
     RedirectURL := redirectURL; Scopes := scopes;
     Endpoint_AuthURL := authURL; Endpoint_TokenURL := tokenURL |}.


(* ===================================================================== *)
(** ** Partial walks and what a computation may touch *)
(* ===================================================================== *)

(** The cursor a walk stands on after [pages]: the URL of the request
    that comes next, if one does. *)
Fixpoint walk_end (P : Type) (next : P -> string) (url : string)
    (pages : list P) : string :=
  match pages with
  | [] => url
  | p :: rest => walk_end next (next p) rest
  end.

(** Every request of the walk through [pages] has a URL: [url] and the
    cursors of all pages but the last are non-empty.  Nothing is said of
    the last cursor. *)
Fixpoint open_chain (P : Type) (next : P -> string) (url : string)
    (pages : list P) : Prop :=
  match pages with
  | [] => True
  | p :: rest => url <> "" /\ open_chain next (next p) rest
  end.

(** [serves_json]: as [serves], with every body decoding to its page
    without an error. *)
Fixpoint serves_json (P : Type) (decode : Data -> P * option error)
    (next : P -> string) (t : list string -> string -> Reply)
    (hist : list string) (url : string) (pages : list P) : Prop :=
  match pages with
  | [] => True
  | p :: rest =>
      (exists d, t hist url = Served {| Body := Ok d |} /\ decode d = (p, None))
      /\ serves_json decode next t (hist ++ [url]) (next p) rest
  end.

(** Every body the service [t] ever serves decodes without an error. *)
Definition always_json (P : Type) (decode : Data -> P * option error)
    (t : list string -> string -> Reply) : Prop :=
  forall hist url d, t hist url = Served {| Body := Ok d |} -> snd (decode d) = None.

(** [preserves R m]: however [m] ends, by returning or by stopping the
    process, the world it leaves is related by [R] to the one it found. *)
Definition preserves (A : Type) (R : World -> World -> Prop) (m : M A) : Prop :=
  forall w w', final_world (m w) = Some w' -> R w w'.

(** What a fetcher may do to the world: ask the service and print
    progress lines.  It writes no file, logs nothing, makes no folder
    and does not sleep; earlier requests stay in the log, and no
    authorization prompt is added to the output. *)
Definition fetch_only (w w' : World) : Prop :=
  files w' = files w /\ logged w' = logged w
  /\ dirs w' = dirs w /\ slept w' = slept w
  /\ (exists more, requests w' = requests w ++ more)
  /\ last_prompt (rev (stdout w')) = last_prompt (rev (stdout w)).

(** What the backup part of a run may do on top of that: write files
    other than the token cache, create folders, log and sleep. *)
Definition backup_only (w w' : World) : Prop :=
  lookup_file "token_cache.json" (files w')
  = lookup_file "token_cache.json" (files w)
  /\ (exists more, requests w' = requests w ++ more)
  /\ last_prompt (rev (stdout w')) = last_prompt (rev (stdout w)).

(** What the authorization flow may do: print, log, call the token
    endpoint and write the token cache.  It asks the service nothing and
    leaves every other file alone. *)
Definition auth_only (w w' : World) : Prop :=
  requests w' = requests w
  /\ dirs w' = dirs w
  /\ slept w' = slept w
  /\ forall name, name <> "token_cache.json" ->
                  lookup_file name (files w') = lookup_file name (files w).

(** The backup folder is there, or can be made. *)
Definition folder_ready (w : World) : Prop :=
  existsb (String.eqb "backups") (dirs w) = true \/ mkdir_error w "backups" = None.

(** The error [ioutil.WriteFile] returns for a failure. *)
Definition failure_error (f : WriteFailure) : error :=
  match f with
  | OpenFailed err => err
  | WriteFailed err => err
  | CloseFailed err => err
  end.

(** A world with the given file-system failures. *)
Definition with_disk_errors (on_write : string -> option WriteFailure)
    (on_mkdir : string -> option error) (w : World) : World :=
  {| transport := transport w; requests := requests w;
     stdout := stdout w; logged := logged w; files := files w;
     write_error := on_write; dirs := dirs w;
     mkdir_error := on_mkdir; dotenv := dotenv w;
     exchange := exchange w; exchanged := exchanged w;
     inbound := inbound w; slept := slept w |}.

Definition full_disk_world : World :=
  with_disk_errors (fun _ => Some (WriteFailed (New "no space left on device")))
                   (fun _ => None) provider_world.

Definition locked_world : World :=
  with_disk_errors (fun _ => None) (fun _ => Some (New "permission denied"))
                   provider_world.

(** Two hyphens in a row somewhere in a name. *)
Fixpoint double_hyphen (s : string) : bool :=
  match s with
  | EmptyString => false
  | String c rest =>
      match rest with
      | String c' _ => (Ascii.eqb c "-" && Ascii.eqb c' "-") || double_hyphen rest
      | EmptyString => false
      end
  end.

(** A provider that answers every request with the same full page of
    fifty entries, whose cursor points back at the first page. *)
Definition looping_page : PlaylistPage :=
  playlist_page (repeat rock 50) fetchPlaylists_url.

Definition looping_provider (hist : list string) (url : string) : Reply :=
  ok (playlists_json looping_page).

Definition looping_world : World :=
  fresh_world looping_provider (Some cached_token) no_callback.

(** The provider of above with every body after the first of a run
    breaking off while it is read. *)
Definition truncating_provider (hist : list string) (url : string) : Reply :=
  match hist with
  | [] => provider hist url
  | _ :: _ => Served {| Body := Err (New "unexpected EOF") |}
  end.

Definition truncating_world : World :=
  fresh_world truncating_provider (Some cached_token) no_callback.

(** The provider of above with every request after the first of a run
    caught in a redirect loop. *)
Definition redirecting_provider (hist : list string) (url : string) : Reply :=
  match hist with
  | [] => provider hist url
  | _ :: _ => RedirectFailed {| Body := Err (New "http: read on closed response body") |}
                             too_many_redirects
  end.

Definition redirecting_world : World :=
  fresh_world redirecting_provider (Some cached_token) no_callback.

(** A world whose token endpoint refuses every code. *)
Definition refused_run : World :=
  fresh_world provider None
    (CallbackRequest [("code", "stale-code"); ("state", "random-string-for-state-check")]).

(** A callback that carries no [state] parameter at all. *)
Definition stateless_run : World :=
  fresh_world provider None (CallbackRequest [("code", "good-code")]).

(* ===================================================================== *)
(** ** Lemmas on walks *)
(* ===================================================================== *)

Lemma walk_urls_length (P : Type) (next : P -> string) url pages :
  List.length (walk_urls next url pages) = List.length pages.
Proof.
  revert url. induction pages as [|p rest IH]; intros url; simpl;
    [reflexivity | now rewrite IH].
Qed.

Lemma chained_app (P : Type) (next : P -> string) url init last :
  url <> "" ->
  Forall (fun p => next p <> "") init ->
  next last = "" ->
  chained next url (init ++ [last]).
Proof.
  intros Hurl Hinit Hlast. revert url Hurl.
  induction Hinit as [|p init Hp _ IH]; intros url Hurl; simpl.
  - split; [exact Hurl | exact Hlast].
  - split; [exact Hurl | apply IH; exact Hp].
Qed.

Lemma same_outside_refl w : same_outside w w.
Proof. repeat split. Qed.

Lemma same_outside_trans w1 w2 w3 :
  same_outside w1 w2 -> same_outside w2 w3 -> same_outside w1 w3.
Proof.
  unfold same_outside. intros H12 H23.
  decompose [and] H12. decompose [and] H23.
  repeat split; congruence.
Qed.

Lemma string_eqb_nonempty s : s <> "" -> String.eqb s "" = false.
Proof. intros H. apply String.eqb_neq. exact H. Qed.

(** One successful round of a loop: unfold the request, use the reply
    the hypothesis gives, and reduce. *)
Ltac served_round Hreply :=
  unfold bind at 1, client_Get at 1; rewrite Hreply; cbn [ioutil_ReadAll Body].

Lemma fetchPlaylists_loop_walk :
  forall pages fuel playlists url w,
    serves json_Unmarshal_PlaylistPage PlaylistPage_Next
           (transport w) (requests w) url pages ->
    chained PlaylistPage_Next url pages ->
    List.length pages <= fuel ->
    exists w',
      fetchPlaylists_loop fuel playlists url w
        = Returns (Ok (playlists ++ all_playlists pages)) w'
      /\ requests w' = requests w ++ walk_urls PlaylistPage_Next url pages
      /\ same_outside w w'.
Proof.
  induction pages as [|p rest IH]; intros fuel playlists url w Hs Hc Hf.
  - simpl in Hc. subst url. exists w.
    unfold all_playlists. simpl. rewrite !app_nil_r.
    destruct fuel; simpl; repeat split.
  - destruct Hs as [[d [Hreply Hd]] Hrest]. destruct Hc as [Hurl Hc].
    destruct fuel as [|fuel]; [simpl in Hf; lia|].
    simpl in Hf. apply le_S_n in Hf.
    cbn [fetchPlaylists_loop]. rewrite (string_eqb_nonempty Hurl).
    served_round Hreply.
    unfold bind, ret, fmt_Printf, json_Unmarshal_PlaylistPage in *.
    destruct (as_PlaylistPage d) as [page derr]. simpl in Hd. subst page.
    match goal with
    | |- context [fetchPlaylists_loop fuel ?acc ?u ?w1] =>
        destruct (IH fuel acc u w1) as [w' [Hrun [Hreq Hsame]]]
    end; [exact Hrest | exact Hc | exact Hf |].
    exists w'. rewrite Hrun. split; [|split].
    + unfold all_playlists. simpl. now rewrite <- app_assoc.
    + rewrite Hreq. simpl. now rewrite <- app_assoc.
    + eapply same_outside_trans; [|exact Hsame]. repeat split.
Qed.

Lemma fetchPlaylistTracks_loop_walk :
  forall pages fuel playlist tracks url w,
    serves json_Unmarshal_TracksPage TracksPage_Next
           (transport w) (requests w) url pages ->
    chained TracksPage_Next url pages ->
    List.length pages <= fuel ->
    exists w',
      fetchPlaylistTracks_loop fuel playlist tracks url w
        = Returns (Ok (tracks ++ all_tracks pages)) w'
      /\ requests w' = requests w ++ walk_urls TracksPage_Next url pages
      /\ same_outside w w'.
Proof.
  induction pages as [|p rest IH]; intros fuel playlist tracks url w Hs Hc Hf.
  - simpl in Hc. subst url. exists w.
    unfold all_tracks. simpl. rewrite !app_nil_r.
    destruct fuel; simpl; repeat split.
  - destruct Hs as [[d [Hreply Hd]] Hrest]. destruct Hc as [Hurl Hc].
    destruct fuel as [|fuel]; [simpl in Hf; lia|].
    simpl in Hf. apply le_S_n in Hf.
    cbn [fetchPlaylistTracks_loop]. rewrite (string_eqb_nonempty Hurl).
    served_round Hreply.
    unfold bind, ret, fmt_Printf, json_Unmarshal_TracksPage in *.
    destruct (as_TracksPage d) as [page derr]. simpl in Hd. subst page.
    match goal with
    | |- context [fetchPlaylistTracks_loop fuel playlist ?acc ?u ?w1] =>
        destruct (IH fuel playlist acc u w1) as [w' [Hrun [Hreq Hsame]]]
    end; [exact Hrest | exact Hc | exact Hf |].
    exists w'. rewrite Hrun. split; [|split].
    + unfold all_tracks. simpl. now rewrite <- app_assoc.
    + rewrite Hreq. simpl. now rewrite <- app_assoc.
    + eapply same_outside_trans; [|exact Hsame]. repeat split.
Qed.

(** The saved-tracks loop walks through full pages, whatever their
    cursors, and returns at the first short one. *)
Lemma fetchSavedTracks_loop_walk :
  forall full short fuel tracks url w,
    serves json_Unmarshal_TracksPage TracksPage_Next
           (transport w) (requests w) url (full ++ [short]) ->
    Forall (fun p => short_page p = false) full ->
    short_page short = true ->
    List.length (full ++ [short]) <= fuel ->
    exists w',
      fetchSavedTracks_loop fuel tracks url w
        = Returns (Ok (tracks ++ all_tracks (full ++ [short]))) w'
      /\ requests w' = requests w ++ walk_urls TracksPage_Next url (full ++ [short])
      /\ same_outside w w'.
Proof.
  induction full as [|p rest IH]; intros short fuel tracks url w Hs Hfull Hshort Hf.
  - destruct Hs as [[d [Hreply Hd]] _].
    destruct fuel as [|fuel]; [simpl in Hf; lia|].
    cbn [fetchSavedTracks_loop app].
    served_round Hreply.
    unfold bind, ret, json_Unmarshal_TracksPage in *.
    destruct (as_TracksPage d) as [page derr]. simpl in Hd. subst page.
    unfold short_page in Hshort. rewrite Hshort.
    exists (with_request url w). split; [|split].
    + unfold all_tracks. simpl. now rewrite app_nil_r.
    + reflexivity.
    + repeat split.
  - destruct Hs as [[d [Hreply Hd]] Hrest].
    apply Forall_cons_iff in Hfull. destruct Hfull as [Hp Hfull'].
    destruct fuel as [|fuel]; [simpl in Hf; lia|].
    simpl in Hf. apply le_S_n in Hf.
    cbn [fetchSavedTracks_loop app].
    served_round Hreply.
    unfold bind, ret, fmt_Printf, Body_Close, json_Unmarshal_TracksPage in *.
    destruct (as_TracksPage d) as [page derr]. simpl in Hd. subst page.
    unfold short_page in Hp. rewrite Hp. unfold ret. cbn beta iota.
    match goal with
    | |- context [fetchSavedTracks_loop fuel ?acc ?u ?w1] =>
        destruct (IH short fuel acc u w1) as [w' [Hrun [Hreq Hsame]]]
    end; [exact Hrest | exact Hfull' | exact Hshort | exact Hf |].
    exists w'. rewrite Hrun. split; [|split].
    + unfold all_tracks. simpl. now rewrite <- app_assoc.
    + rewrite Hreq. simpl. now rewrite <- app_assoc.
    + eapply same_outside_trans; [|exact Hsame]. repeat split.
Qed.

(** A full page never ends the saved-tracks loop: its cursor is
    requested next, empty or not. *)
Lemma fetchSavedTracks_loop_full_page :
  forall fuel tracks url w d,
    transport w (requests w) url = Served {| Body := Ok d |} ->
    short_page (fst (json_Unmarshal_TracksPage d)) = false ->
    let page := fst (json_Unmarshal_TracksPage d) in
    let tracks' := tracks ++ TracksPage_Items page in
    fetchSavedTracks_loop (S fuel) tracks url w
      = fetchSavedTracks_loop fuel tracks' (TracksPage_Next page)
          (with_output (Text ("Fetched " ++ itoa (List.length tracks')
                              ++ " saved tracks\n"))
                       (with_request url w)).
Proof.
  intros fuel tracks url w d Hreply Hfull. cbn zeta.
  cbn [fetchSavedTracks_loop].
  served_round Hreply.
  unfold bind, ret, fmt_Printf, Body_Close, json_Unmarshal_TracksPage in *.
  destruct (as_TracksPage d) as [page derr]. simpl in Hfull |- *.
  unfold short_page in Hfull. rewrite Hfull. reflexivity.
Qed.

(** A failed request: the two cursor-driven fetchers close the body of
    the response they did not get; the saved-tracks fetcher returns. *)
Lemma fetchPlaylists_loop_Get_failed :
  forall fuel playlists url w err,
    url <> "" ->
    transport w (requests w) url = Failed err ->
    fetchPlaylists_loop (S fuel) playlists url w
      = Stops NilDereference (with_request url w).
Proof.
  intros fuel playlists url w err Hurl Hreply.
  cbn [fetchPlaylists_loop]. rewrite (string_eqb_nonempty Hurl).
  unfold bind at 1, client_Get at 1. rewrite Hreply. reflexivity.
Qed.

Lemma fetchPlaylistTracks_loop_Get_failed :
  forall fuel playlist tracks url w err,
    url <> "" ->
    transport w (requests w) url = Failed err ->
    fetchPlaylistTracks_loop (S fuel) playlist tracks url w
      = Stops NilDereference (with_request url w).
Proof.
  intros fuel playlist tracks url w err Hurl Hreply.
  cbn [fetchPlaylistTracks_loop]. rewrite (string_eqb_nonempty Hurl).
  unfold bind at 1, client_Get at 1. rewrite Hreply. reflexivity.
Qed.

Lemma fetchSavedTracks_loop_Get_failed :
  forall fuel tracks url w err,
    transport w (requests w) url = Failed err ->
    fetchSavedTracks_loop (S fuel) tracks url w
      = Returns (Err (Wrap err "failed to fetch saved tracks")) (with_request url w).
Proof.
  intros fuel tracks url w err Hreply.
  cbn [fetchSavedTracks_loop].
  unfold bind at 1, client_Get at 1. rewrite Hreply. reflexivity.
Qed.

(* ===================================================================== *)
(** ** Pagination: properties *)
(* ===================================================================== *)

(** C1.  When the service answers a walk with a sequence of pages of
    which every page but the last has a non-empty [next] cursor and the
    last has an empty one, [fetchPlaylists] and [fetchPlaylistTracks]
    return the items of all the pages, concatenated in order, and ask the
    service exactly once per page: for the start URL and then for each
    cursor. *)
Theorem C1_cursor_walk_returns_every_page :
  forall (w : World) (fuel : nat),
    (forall (init : list PlaylistPage) (last : PlaylistPage),
        serves json_Unmarshal_PlaylistPage PlaylistPage_Next
               (transport w) (requests w) fetchPlaylists_url (init ++ [last]) ->
        Forall (fun p => PlaylistPage_Next p <> "") init ->
        PlaylistPage_Next last = "" ->
        List.length (init ++ [last]) <= fuel ->
        exists w',
          fetchPlaylists fuel w = Returns (Ok (all_playlists (init ++ [last]))) w'
          /\ requests w'
             = requests w ++ walk_urls PlaylistPage_Next fetchPlaylists_url (init ++ [last])
          /\ List.length (requests w')
             = List.length (requests w) + List.length (init ++ [last]))
    /\
    (forall (playlist : Playlist) (init : list TracksPage) (last : TracksPage),
        serves json_Unmarshal_TracksPage TracksPage_Next
               (transport w) (requests w) (fetchPlaylistTracks_url playlist)
               (init ++ [last]) ->
        Forall (fun p => TracksPage_Next p <> "") init ->
        TracksPage_Next last = "" ->
        List.length (init ++ [last]) <= fuel ->
        exists w',
          fetchPlaylistTracks fuel playlist w
            = Returns (Ok (all_tracks (init ++ [last]))) w'
          /\ requests w'
             = requests w ++ walk_urls TracksPage_Next (fetchPlaylistTracks_url playlist)
                                       (init ++ [last])
          /\ List.length (requests w')
             = List.length (requests w) + List.length (init ++ [last])).
Proof.
  intros w fuel. split.
  - intros init last Hs Hinit Hlast Hf.
    destruct (@fetchPlaylists_loop_walk (init ++ [last]) fuel [] fetchPlaylists_url w)
      as [w' [Hrun [Hreq _]]]; trivial.
    + apply chained_app; trivial. discriminate.
    + exists w'. repeat split; trivial.
      rewrite Hreq, length_app, walk_urls_length. reflexivity.
  - intros playlist init last Hs Hinit Hlast Hf.
    destruct (@fetchPlaylistTracks_loop_walk (init ++ [last]) fuel playlist []
                (fetchPlaylistTracks_url playlist) w)
      as [w' [Hrun [Hreq _]]]; trivial.
    + apply chained_app; trivial. discriminate.
    + exists w'. repeat split; trivial.
      rewrite Hreq, length_app, walk_urls_length. reflexivity.
Qed.

Lemma C1_witness :
  (exists w',
      fetchPlaylists 2 provider_world = Returns (Ok [rock; jazz; folk]) w'
      /\ requests w' = [fetchPlaylists_url; playlists_page2_url]
      /\ List.length (requests w') = 2)
  /\
  (exists w',
      fetchPlaylistTracks 2 rock provider_world
        = Returns (Ok [song "a"; song "b"; song "c"]) w'
      /\ requests w' = [fetchPlaylistTracks_url rock; rock_page2_url]
      /\ List.length (requests w') = 2).
Proof.
  destruct (C1_cursor_walk_returns_every_page provider_world 2) as [HP HT].
  split.
  - apply (HP [playlists_page1] playlists_page2).
    + simpl. split; [|split; [|exact I]].
      * exists (playlists_json playlists_page1). split; reflexivity.
      * exists (playlists_json playlists_page2). split; reflexivity.
    + constructor; [discriminate | constructor].
    + reflexivity.
    + simpl. lia.
  - apply (HT rock [rock_page1] rock_page2).
    + simpl. split; [|split; [|exact I]].
      * exists (tracks_json rock_page1). split; reflexivity.
      * exists (tracks_json rock_page2). split; reflexivity.
    + constructor; [discriminate | constructor].
    + reflexivity.
    + simpl. lia.
Defined.

(** C5.  When a page of saved tracks holds fewer than 50 items (the
    limit requested), [fetchSavedTracks] ends at that page, whatever its
    [next] cursor, and returns every item gathered so far, that page's
    included.  The pages before it were full, or the fetch would have
    ended earlier. *)
Theorem C5_short_page_ends_saved_tracks :
  forall (w : World) (fuel : nat) (full : list TracksPage) (short : TracksPage),
    serves json_Unmarshal_TracksPage TracksPage_Next
           (transport w) (requests w) fetchSavedTracks_url (full ++ [short]) ->
    Forall (fun p => 50 <= List.length (TracksPage_Items p)) full ->
    List.length (TracksPage_Items short) < 50 ->
    List.length (full ++ [short]) <= fuel ->
    exists w',
      fetchSavedTracks fuel w = Returns (Ok (all_tracks (full ++ [short]))) w'
      /\ requests w'
         = requests w ++ walk_urls TracksPage_Next fetchSavedTracks_url (full ++ [short])
      /\ List.length (requests w')
         = List.length (requests w) + List.length (full ++ [short]).
Proof.
  intros w fuel full short Hs Hfull Hshort Hf.
  destruct (@fetchSavedTracks_loop_walk full short fuel [] fetchSavedTracks_url w)
    as [w' [Hrun [Hreq _]]]; trivial.
  - eapply Forall_impl; [|exact Hfull]. intros p Hp.
    unfold short_page, savedTracks_limit. apply Nat.ltb_ge. exact Hp.
  - unfold short_page, savedTracks_limit. apply Nat.ltb_lt. exact Hshort.
  - exists w'. repeat split; trivial.
    rewrite Hreq, length_app, walk_urls_length. reflexivity.
Qed.

Lemma C5_witness :
  TracksPage_Next saved_page2 <> ""
  /\ exists w',
      fetchSavedTracks 2 provider_world
        = Returns (Ok (fifty_songs ++ [song "y"; song "z"])) w'
      /\ requests w' = [fetchSavedTracks_url; saved_page2_url]
      /\ List.length (requests w') = 2.
Proof.
  split; [discriminate|].
  replace (fifty_songs ++ [song "y"; song "z"])
    with (all_tracks ([saved_page1] ++ [saved_page2])) by reflexivity.
  apply (@C5_short_page_ends_saved_tracks provider_world 2
            [saved_page1] saved_page2).
  - simpl. split; [|split; [|exact I]].
    + exists (tracks_json saved_page1). split; reflexivity.
    + exists (tracks_json saved_page2). split; reflexivity.
  - constructor; [|constructor]. vm_compute. lia.
  - simpl. lia.
  - simpl. lia.
Defined.

(** C2.  The saved-tracks loop has one exit, the short page.  For a
    library of exactly fifty saved tracks the service sends one full page
    with an empty cursor; [fetchSavedTracks] does not end there but
    requests the empty URL, and returns the error of that request in
    place of the fifty tracks. *)
Theorem C2_full_page_with_empty_cursor_is_requested_again :
  forall fuel : nat,
    returned (fetchSavedTracks (2 + fuel) fifty_world)
      = Some (Err (Wrap unsupported_scheme "failed to fetch saved tracks"))
    /\ requests_of (fetchSavedTracks (2 + fuel) fifty_world)
       = [fetchSavedTracks_url; ""].
Proof. intros fuel. split; reflexivity. Qed.

(** C3.  A provider that loses the connection on the second request of
    a run: [client.Get] returns a nil response and an error.
    [fetchPlaylists] and [fetchPlaylistTracks] call [resp.Body.Close()]
    on that nil response before their [return] and stop in a nil
    dereference, returning nothing; [fetchSavedTracks], which has no such
    call, returns the wrapped error and no items. *)
Theorem C3_failed_request_closes_nil_response :
  forall fuel : nat,
    halted (fetchPlaylists (2 + fuel) flaky_world) = Some NilDereference
    /\ returned (fetchPlaylists (2 + fuel) flaky_world) = None
    /\ halted (fetchPlaylistTracks (2 + fuel) rock flaky_world) = Some NilDereference
    /\ returned (fetchPlaylistTracks (2 + fuel) rock flaky_world) = None
    /\ returned (fetchSavedTracks (2 + fuel) flaky_world)
       = Some (Err (Wrap connection_reset "failed to fetch saved tracks"))
    /\ requests_of (fetchSavedTracks (2 + fuel) flaky_world)
       = [fetchSavedTracks_url; saved_page2_url].
Proof. intros fuel. repeat split; reflexivity. Qed.

(** C4.  A provider whose second page is not JSON: the fetchers drop
    the error of [json.Unmarshal], read the untouched zero page (no
    items, empty cursor) and return the items of the first page as the
    whole collection, with no error. *)
Theorem C4_decode_error_is_dropped :
  forall fuel : nat,
    returned (fetchPlaylists (2 + fuel) garbling_world) = Some (Ok [rock; jazz])
    /\ returned (fetchPlaylistTracks (2 + fuel) rock garbling_world)
       = Some (Ok [song "a"])
    /\ returned (fetchSavedTracks (2 + fuel) garbling_world) = Some (Ok fifty_songs).
Proof. intros fuel. destruct fuel; repeat split; reflexivity. Qed.

(* ===================================================================== *)
(** ** File names: properties *)
(* ===================================================================== *)

Lemma render_runs_cons br runs :
  render_runs (br :: runs)
  = ((if fst br then snd br else "-") ++ render_runs runs)%string.
Proof.
  unfold render_runs. destruct runs as [|br' runs]; simpl.
  - destruct (fst br); simpl; [|reflexivity].
    induction (snd br) as [|c r IH]; simpl; [reflexivity | now rewrite <- IH].
  - reflexivity.
Qed.

(** The scanner and the cutting into runs agree.  Inside a match the
    scanner has already put the hyphen of the run it is in. *)
Lemma ReplaceAllString_from_runs s :
  ReplaceAllString_from false s = collapse_runs s
  /\ ReplaceAllString_from true s
     = match maximal_runs s with
       | (false, _) :: runs => render_runs runs
       | runs => render_runs runs
       end.
Proof.
  unfold collapse_runs.
  induction s as [|c rest [IHout IHin]]; [split; reflexivity|].
  cbn [ReplaceAllString_from maximal_runs].
  destruct (maximal_runs rest) as [|[b r] runs]; destruct (in_class c) eqn:Hc.
  - rewrite IHout. split; reflexivity.
  - rewrite IHin. split; reflexivity.
  - rewrite IHout. destruct b; cbn [Bool.eqb]; rewrite !render_runs_cons;
      split; reflexivity.
  - rewrite IHin. destruct b; cbn [Bool.eqb]; rewrite !render_runs_cons;
      split; reflexivity.
Qed.

Lemma ReplaceAllString_collapse s : ReplaceAllString s = collapse_runs s.
Proof. exact (proj1 (ReplaceAllString_from_runs s)). Qed.

Lemma filepath_Clean_nonempty path : filepath_Clean path <> "".
Proof.
  unfold filepath_Clean. cbv zeta.
  match goal with |- (if String.eqb ?x "" then _ else _) <> _ =>
    destruct (String.eqb_spec x "") as [_|Hne] end;
    [discriminate | exact Hne].
Qed.

Lemma ReplaceAllString_nonempty s : s <> "" -> ReplaceAllString s <> "".
Proof.
  destruct s as [|c rest]; [congruence|]. intros _.
  unfold ReplaceAllString. simpl. destruct (in_class c); discriminate.
Qed.

Lemma path_elements_no_slash s : has_slash s = false -> path_elements s = [s].
Proof.
  induction s as [|c rest IH]; simpl; [reflexivity|].
  intros H. apply orb_false_iff in H. destruct H as [Hc Hrest].
  rewrite Hc, (IH Hrest). reflexivity.
Qed.

(** A name without separator is a single path element, which cleaning
    keeps as it is, unless it is empty. *)
Lemma filepath_Clean_no_slash name :
  name <> "" -> has_slash name = false -> filepath_Clean name = name.
Proof.
  intros Hne Hslash. unfold filepath_Clean.
  rewrite (path_elements_no_slash _ Hslash).
  destruct name as [|c rest]; [congruence|].
  simpl in Hslash. apply orb_false_iff in Hslash. destruct Hslash as [Hc _].
  rewrite Hc. cbn [fold_left]. unfold clean_step.
  destruct (String.eqb_spec (String c rest) "") as [E|_]; [discriminate E|].
  destruct (String.eqb_spec (String c rest) ".") as [E|_]; [rewrite E; reflexivity|].
  destruct (String.eqb_spec (String c rest) "..") as [E|_]; [rewrite E; reflexivity|].
  reflexivity.
Qed.

(** C6, as the code has it.  [saveJSONToFile] cleans the name as a path
    first ([filepath.Clean]) and then replaces every maximal run of bytes
    outside [[A-Za-z0-9_]] of the cleaned name by one hyphen, keeping the
    bytes of the class in order.  On a non-empty name without [/]
    cleaning changes nothing and the rule applies to the name itself:
    ["My Playlist #1!"] gives ["My-Playlist-1-"], mixed punctuation and
    UTF-8 runes collapse run by run; the empty name is cleaned to ["."]
    and gives ["-"]. *)
Theorem C6_safeFilename_collapses_runs_of_cleaned_name :
  (forall name : string, safeFilename name = collapse_runs (filepath_Clean name))
  /\ (forall name : string,
         name <> "" -> has_slash name = false ->
         safeFilename name = collapse_runs name)
  /\ safeFilename "My Playlist #1!" = "My-Playlist-1-"
  /\ safeFilename "a,b;;c--d  (e)" = "a-b-c-d-e-"
  /\ safeFilename ("Bj" ++ String (ascii_of_nat 195) (String (ascii_of_nat 182) "rk"))
     = "Bj-rk"
  /\ safeFilename "" = "-".
Proof.
  split; [|split].
  - intros name. unfold safeFilename. apply ReplaceAllString_collapse.
  - intros name Hne Hslash. unfold safeFilename.
    rewrite (filepath_Clean_no_slash Hne Hslash). apply ReplaceAllString_collapse.
  - repeat split; reflexivity.
Qed.

Lemma C6_witness :
  "My Playlist #1!" <> "" /\ has_slash "My Playlist #1!" = false
  /\ safeFilename "My Playlist #1!" = collapse_runs "My Playlist #1!".
Proof.
  split; [discriminate|]. split; [reflexivity|].
  apply (proj1 (proj2 C6_safeFilename_collapses_runs_of_cleaned_name)).
  - discriminate.
  - reflexivity.
Defined.

(** C6, as the specification words it, with the rule applied to the
    name itself: it fails on the empty name, which has no run to replace
    and yet gives a hyphen. *)
Lemma C6_counterexample_empty_name :
  collapse_runs "" = "" /\ safeFilename "" = "-"
  /\ safeFilename "" <> collapse_runs "".
Proof. repeat split. vm_compute. discriminate. Qed.

(** C10.  The safe file name is never empty; the empty name is cleaned
    to ["."], which the sanitizer turns into one hyphen, so the file is
    [backups/-.json]. *)
Theorem C10_safeFilename_nonempty :
  (forall name : string, safeFilename name <> "")
  /\ filepath_Clean "" = "."
  /\ safeFilename "" = "-"
  /\ backup_filename "" = "backups/-.json".
Proof.
  split; [|repeat split; reflexivity].
  intros name. unfold safeFilename.
  apply ReplaceAllString_nonempty, filepath_Clean_nonempty.
Qed.

(* ===================================================================== *)
(** ** Authenticator: properties *)
(* ===================================================================== *)

(** Reduce the world bookkeeping of the flow after a case split. *)
Ltac flow_step :=
  cbn [negb final_world stdout exchange write_error
       with_log with_output with_exchanged with_file].

Lemma last_prompt_snoc out url :
  last_prompt (rev (out ++ [AuthPrompt url])) = Some url.
Proof. rewrite rev_unit. reflexivity. Qed.

Lemma last_prompt_snoc_body out url text :
  last_prompt (rev ((out ++ [AuthPrompt url]) ++ [CallbackBody text])) = Some url.
Proof. rewrite !rev_unit. reflexivity. Qed.

(** Whatever the callback brings, the flow has presented the URL built
    around the literal of line 123. *)
Lemma oauthFlow_presented_url conf w :
  presented_url (oauthFlow conf w)
  = Some (AuthCodeURL conf "random-string-for-state-check").
Proof.
  unfold presented_url, oauthFlow, bind at 1. cbv zeta.
  cbn [inbound with_output].
  destruct (inbound w) as [query|err].
  - unfold callback, saveToken, conf_Exchange, ioutil_WriteFile, os_Exit0,
      log_Fatal, stop, ret, bind.
    destruct (String.eqb "random-string-for-state-check" (query_Get query "state"));
      flow_step; [|apply last_prompt_snoc].
    destruct (exchange w (query_Get query "code")) as [token|err];
      flow_step; [|apply last_prompt_snoc].
    destruct (write_error w "token_cache.json") as [[e|e|e]|]; flow_step.
    + apply last_prompt_snoc.
    + apply last_prompt_snoc.
    + apply last_prompt_snoc.
    + apply last_prompt_snoc_body.
  - unfold log_Fatal. flow_step. apply last_prompt_snoc.
Qed.

Lemma AuthCodeURL_state conf :
  query_Get (params (AuthCodeURL conf "random-string-for-state-check")) "state"
  = "random-string-for-state-check".
Proof.
  unfold AuthCodeURL. cbn [params].
  destruct (String.eqb (RedirectURL conf) ""); destruct (Scopes conf); reflexivity.
Qed.

Lemma oauthFlow_issued_state conf w :
  issued_state (oauthFlow conf w) = Some "random-string-for-state-check".
Proof.
  unfold issued_state. rewrite oauthFlow_presented_url. cbn [option_map].
  now rewrite AuthCodeURL_state.
Qed.

(** C7.  When the [state] parameter of the callback differs from the
    state the flow issued, [oauthFlow] stops in [log.Fatalf]: the code is
    not sent to the token endpoint and no file, the token cache among
    them, is written. *)
Theorem C7_state_mismatch_aborts :
  forall (conf : Config) (w : World) (query : list (string * string)),
    inbound w = CallbackRequest query ->
    issued_state (oauthFlow conf w) <> Some (query_Get query "state") ->
    exists w',
      oauthFlow conf w = Stops Fatal w'
      /\ exchanged w' = exchanged w
      /\ files w' = files w
      /\ logged w'
         = logged w ++ [("Invalid state received: " ++ query_Get query "state")%string].
Proof.
  intros conf w query Hin Hstate.
  rewrite oauthFlow_issued_state in Hstate.
  assert (Hneq : String.eqb "random-string-for-state-check" (query_Get query "state")
                 = false).
  { apply String.eqb_neq. intros E. apply Hstate. now rewrite E. }
  unfold oauthFlow, bind at 1. cbv zeta. cbn [inbound with_output]. rewrite Hin.
  unfold callback, bind at 1. rewrite Hneq. cbn [negb]. unfold log_Fatal.
  eexists. split; [reflexivity|]. repeat split.
Qed.

Lemma C7_witness :
  exists w',
    oauthFlow (main_conf (fun _ => "client-id")) forged_run = Stops Fatal w'
    /\ exchanged w' = []
    /\ files w' = []
    /\ logged w' = ["Invalid state received: forged"].
Proof.
  apply (@C7_state_mismatch_aborts (main_conf (fun _ => "client-id")) forged_run
           [("code", "good-code"); ("state", "forged")]).
  - reflexivity.
  - vm_compute. discriminate.
Defined.

Lemma loadToken_world w : exists r, loadToken w = Returns r w.
Proof.
  unfold loadToken, bind, ioutil_ReadFile.
  destruct (lookup_file "token_cache.json" (files w)) as [file|].
  - destruct (json_Unmarshal_Token file); eexists; reflexivity.
  - eexists; reflexivity.
Qed.

Lemma oauthFlow_stops conf w : exists h w', oauthFlow conf w = Stops h w'.
Proof.
  unfold oauthFlow, bind at 1. cbv zeta.
  cbn [inbound with_output].
  destruct (inbound w) as [query|err].
  - unfold callback, saveToken, conf_Exchange, ioutil_WriteFile, os_Exit0,
      log_Fatal, stop, ret, bind.
    destruct (String.eqb "random-string-for-state-check" (query_Get query "state"));
      flow_step; [|eexists; eexists; reflexivity].
    destruct (exchange w (query_Get query "code")) as [token|err];
      flow_step; [|eexists; eexists; reflexivity].
    destruct (write_error w "token_cache.json") as [[e|e|e]|]; flow_step;
      eexists; eexists; reflexivity.
  - unfold log_Fatal. eexists; eexists; reflexivity.
Qed.

(** Without a usable token cache, [main] is the flow run on the
    configuration built from the environment. *)
Lemma main_without_token fuel w env err :
  dotenv w = Ok env ->
  returned (loadToken w) = Some (Err err) ->
  exists h w', main fuel w = Stops h w'
               /\ oauthFlow (main_conf env) w = Stops h w'.
Proof.
  intros Henv Hload.
  destruct (loadToken_world w) as [r Hr]. rewrite Hr in Hload.
  cbn [returned] in Hload. injection Hload as ->.
  destruct (oauthFlow_stops (main_conf env) w) as [h [w' Hflow]].
  exists h, w'. split; [|exact Hflow].
  unfold main, bind at 1, godotenv_Load. rewrite Henv.
  unfold bind at 1, os_Getenv at 1. rewrite Henv.
  unfold bind at 1, os_Getenv at 1. rewrite Henv.
  unfold bind at 1. rewrite Hr.
  unfold bind at 1. unfold bind at 1.
  fold (main_conf env). rewrite Hflow. reflexivity.
Qed.

(** C9, as the code has it.  The state value in the authorization URL
    is the literal ["random-string-for-state-check"] of line 123, the
    same in every run; the URL goes to the authorization endpoint and
    carries the two scopes the program needs. *)
Theorem C9_state_is_a_fixed_literal :
  forall (fuel : nat) (w : World) (env : string -> string) (err : error),
    dotenv w = Ok env ->
    returned (loadToken w) = Some (Err err) ->
    exists url,
      presented_url (main fuel w) = Some url
      /\ endpoint url = authURL
      /\ query_Get (params url) "state" = "random-string-for-state-check"
      /\ query_Get (params url) "scope" = "playlist-read-private user-library-read"
      /\ issued_state (main fuel w) = Some "random-string-for-state-check".
Proof.
  intros fuel w env err Henv Hload.
  destruct (@main_without_token fuel w env err Henv Hload) as [h [w' [Hmain Hflow]]].
  pose proof (oauthFlow_presented_url (main_conf env) w) as Hurl.
  rewrite Hflow in Hurl.
  assert (Hp : presented_url (main fuel w)
               = Some (AuthCodeURL (main_conf env) "random-string-for-state-check")).
  { rewrite Hmain. exact Hurl. }
  exists (AuthCodeURL (main_conf env) "random-string-for-state-check").
  split; [exact Hp|]. split; [reflexivity|]. split; [reflexivity|].
  split; [reflexivity|].
  unfold issued_state. rewrite Hp. reflexivity.
Qed.

Lemma C9_witness :
  exists url,
    presented_url (main 0 honest_run) = Some url
    /\ endpoint url = authURL
    /\ query_Get (params url) "state" = "random-string-for-state-check"
    /\ query_Get (params url) "scope" = "playlist-read-private user-library-read"
    /\ issued_state (main 0 honest_run) = Some "random-string-for-state-check".
Proof.
  eapply (@C9_state_is_a_fixed_literal 0 honest_run); reflexivity.
Defined.

(** C9, as the specification words it, with a state that is fresh in
    each run: two different first runs, one answered honestly and one
    with a forged callback, present the same state value. *)
Lemma C9_counterexample_two_runs_one_state :
  honest_run <> forged_run
  /\ issued_state (main 0 honest_run) = Some "random-string-for-state-check"
  /\ issued_state (main 0 forged_run) = issued_state (main 0 honest_run).
Proof.
  split; [|split; reflexivity].
  intros E. apply (f_equal inbound) in E. discriminate E.
Qed.

(* ===================================================================== *)
(** ** Orchestration: properties *)
(* ===================================================================== *)

(** Fetching the tracks of a playlist touches the request log and the
    standard output only. *)
Lemma fetchPlaylistTracks_loop_outside :
  forall fuel playlist tracks url w r w1,
    fetchPlaylistTracks_loop fuel playlist tracks url w = Returns r w1 ->
    same_outside w w1.
Proof.
  induction fuel as [|fuel IH]; intros playlist tracks url w r w1;
    cbn [fetchPlaylistTracks_loop]; destruct (String.eqb url "");
    unfold ret, out_of_fuel; try discriminate;
    try (intros H; injection H as _ <-; apply same_outside_refl).
  unfold bind at 1, client_Get at 1.
  destruct (transport w (requests w) url) as [resp|err|resp err].
  - destruct resp as [[d|err]]; cbn [ioutil_ReadAll Body Body_Close];
      unfold bind, ret, fmt_Printf, json_Unmarshal_TracksPage.
    + destruct (as_TracksPage d) as [page derr]. intros H. apply IH in H.
      eapply same_outside_trans; [|exact H]. repeat split.
    + intros H. injection H as _ <-. repeat split.
  - cbn [Body_Close]. unfold bind, stop. discriminate.
  - cbn [Body_Close]. unfold bind, ret. intros H. injection H as _ <-. repeat split.
Qed.

(** With the environment file and a cached token in place, [main] goes
    straight to the fetching. *)
Lemma main_with_cached_token fuel w env token :
  dotenv w = Ok env ->
  lookup_file "token_cache.json" (files w) = Some (TokenJSON token) ->
  main fuel w = main_backup fuel w.
Proof.
  intros Henv Hfile.
  unfold main, bind at 1, godotenv_Load. rewrite Henv.
  unfold bind at 1, os_Getenv at 1. rewrite Henv.
  unfold bind at 1, os_Getenv at 1. rewrite Henv.
  unfold bind at 1, loadToken, bind at 1, ioutil_ReadFile. rewrite Hfile.
  cbn [json_Unmarshal_Token]. unfold ret, bind at 1. reflexivity.
Qed.

(** A whole run against the fixture provider: the playlist whose
    fetch fails is logged and left out, the two others and the saved
    tracks are written, with a pause after each playlist written. *)
Example main_on_provider :
  exists w,
    main 2 provider_world = Returns tt w
    /\ map fst (files w)
       = ["backups/saved_tracks.json"; "backups/Folk.json";
          "backups/Rock-Metal.json"; "token_cache.json"]
    /\ lookup_file "backups/Rock-Metal.json" (files w)
       = Some (ItemsJSON [song "a"; song "b"; song "c"])
    /\ logged w
       = ["Error fetching tracks for playlist Jazz: failed to fetch tracks for playlist Jazz: stopped after 10 redirects"]
    /\ slept w = [2%Z; 2%Z].
Proof. eexists. split; [vm_compute; reflexivity|]. repeat split. Qed.

(** What [main] does with an error a fetcher returns: the error of the
    track fetch of one playlist is logged, no file is written for that
    playlist and the loop goes on with the playlists that remain; the
    error of the playlist enumeration or of the saved-tracks fetch ends
    the run in [log.Fatalf]. *)
Lemma main_handles_returned_errors :
  (forall (fuel : nat) (p : Playlist) (rest : list Playlist) (w w1 : World)
          (err : error),
      fetchPlaylistTracks fuel p w = Returns (Err err) w1 ->
      let w2 := with_log ("Error fetching tracks for playlist " ++ Playlist_Name p
                          ++ ": " ++ Error err) w1 in
      main_range fuel (p :: rest) w = main_range fuel rest w2
      /\ files w2 = files w
      /\ slept w2 = slept w)
  /\
  (forall (fuel : nat) (w w1 : World) (env : string -> string) (token : Token)
          (err : error),
      dotenv w = Ok env ->
      lookup_file "token_cache.json" (files w) = Some (TokenJSON token) ->
      fetchPlaylists fuel w = Returns (Err err) w1 ->
      main fuel w
      = Stops Fatal (with_log ("Error fetching playlists: " ++ Error err) w1))
  /\
  (forall (fuel : nat) (w w1 w2 w3 : World) (env : string -> string) (token : Token)
          (playlists : list Playlist) (err : error),
      dotenv w = Ok env ->
      lookup_file "token_cache.json" (files w) = Some (TokenJSON token) ->
      fetchPlaylists fuel w = Returns (Ok playlists) w1 ->
      main_range fuel playlists w1 = Returns tt w2 ->
      fetchSavedTracks fuel w2 = Returns (Err err) w3 ->
      main fuel w
      = Stops Fatal (with_log ("Error fetching saved tracks: " ++ Error err) w3)).
Proof.
  split; [|split].
  - intros fuel p rest w w1 err Hfetch w2.
    pose proof (@fetchPlaylistTracks_loop_outside fuel p [] _ w _ w1 Hfetch) as Hout.
    destruct Hout as [_ [Hfiles [_ [_ [_ [Hslept _]]]]]].
    split; [|split].
    + cbn [main_range]. unfold bind at 1. rewrite Hfetch.
      unfold bind at 1, log_Printf. reflexivity.
    + exact Hfiles.
    + exact Hslept.
  - intros fuel w w1 env token err Henv Hfile Hfetch.
    rewrite (@main_with_cached_token fuel w env token Henv Hfile).
    unfold main_backup, bind at 1. rewrite Hfetch. reflexivity.
  - intros fuel w w1 w2 w3 env token playlists err Henv Hfile Hlist Hrange Hsaved.
    rewrite (@main_with_cached_token fuel w env token Henv Hfile).
    unfold main_backup, bind at 1. rewrite Hlist.
    unfold bind at 1. rewrite Hrange.
    unfold bind at 1. rewrite Hsaved. reflexivity.
Qed.

(** C8.  A failure of the track fetch of one playlist does not reach
    [main] as an error when the connection is lost: [fetchPlaylistTracks]
    stops in the nil dereference of line 216, so the run ends there with
    nothing logged, no backup written, and the remaining playlists and
    the saved tracks never asked for.  When the page of tracks fails to
    decode, the fetch reports success: [main] writes an empty backup for
    the playlist and logs nothing about it. *)
Theorem C8_failed_playlist_fetch_ends_or_passes_silently :
  forall fuel : nat,
    halted (main (2 + fuel) lost_tracks_world) = Some NilDereference
    /\ option_map logged (final_world (main (2 + fuel) lost_tracks_world)) = Some []
    /\ option_map files (final_world (main (2 + fuel) lost_tracks_world))
       = Some (files lost_tracks_world)
    /\ requests_of (main (2 + fuel) lost_tracks_world)
       = [fetchPlaylists_url; playlists_page2_url; fetchPlaylistTracks_url rock]
    /\ returned (main (2 + fuel) garbled_tracks_world) = Some tt
    /\ option_map (fun w => lookup_file "backups/Rock-Metal.json" (files w))
                  (final_world (main (2 + fuel) garbled_tracks_world))
       = Some (Some (ItemsJSON []))
    /\ option_map logged (final_world (main (2 + fuel) garbled_tracks_world))
       = Some ["Error fetching tracks for playlist Jazz: failed to fetch tracks for playlist Jazz: stopped after 10 redirects"].
Proof. intros fuel. destruct fuel; repeat split; reflexivity. Qed.

(* ===================================================================== *)
(** ** What the fetchers leave alone *)
(* ===================================================================== *)

Section Preserve.

(** A relation between worlds that holds when nothing happened, composes,
    and admits the two effects of a fetcher. *)
Variable R : World -> World -> Prop.
Hypothesis R_refl : forall w, R w w.
Hypothesis R_trans : forall w1 w2 w3, R w1 w2 -> R w2 w3 -> R w1 w3.
Hypothesis R_request : forall url w, R w (with_request url w).
Hypothesis R_text : forall line w, R w (with_output (Text line) w).

Lemma preserves_ret (A : Type) (a : A) : preserves R (ret a).
Proof. intros w w' H. injection H as <-. apply R_refl. Qed.

Lemma preserves_stop (A : Type) (h : Halt) : preserves R (@stop A h).
Proof. intros w w' H. injection H as <-. apply R_refl. Qed.

Lemma preserves_out_of_fuel (A : Type) : preserves R (@out_of_fuel A).
Proof. intros w w' H. discriminate H. Qed.

Lemma preserves_bind (A B : Type) (m : M A) (k : A -> M B) :
  preserves R m -> (forall a, preserves R (k a)) -> preserves R (bind m k).
Proof.
  intros Hm Hk w w'. unfold bind.
  destruct (m w) as [a w1|h w1|] eqn:E; intros H.
  - apply R_trans with w1; [apply Hm; now rewrite E | now apply (Hk a)].
  - apply Hm. now rewrite E.
  - discriminate H.
Qed.

Lemma preserves_client_Get url : preserves R (client_Get url).
Proof.
  intros w w'. unfold client_Get.
  destruct (transport w (requests w) url); intros H; injection H as <-;
    apply R_request.
Qed.

Lemma preserves_Body_Close resp : preserves R (Body_Close resp).
Proof. destruct resp; [apply preserves_ret | apply preserves_stop]. Qed.

Lemma preserves_ioutil_ReadAll resp : preserves R (ioutil_ReadAll resp).
Proof. destruct resp; [apply preserves_ret | apply preserves_stop]. Qed.

Lemma preserves_fmt_Printf line : preserves R (fmt_Printf line).
Proof. intros w w' H. injection H as <-. apply R_text. Qed.

(** Break a computation down to the library calls it is made of. *)
Ltac preserve_steps :=
  repeat first
    [ apply preserves_ret
    | apply preserves_stop
    | apply preserves_out_of_fuel
    | apply preserves_client_Get
    | apply preserves_Body_Close
    | apply preserves_ioutil_ReadAll
    | apply preserves_fmt_Printf
    | apply preserves_bind; [|intros ?]
    | match goal with
      | |- preserves _ (match ?x with _ => _ end) => destruct x
      | |- preserves _ (let '(_, _) := ?x in _) => destruct x
      | |- preserves _ (if ?b then _ else _) => destruct b
      end ].

Lemma preserves_fetchPlaylists_loop fuel :
  forall playlists url, preserves R (fetchPlaylists_loop fuel playlists url).
Proof.
  induction fuel as [|fuel IH]; intros playlists url;
    cbn [fetchPlaylists_loop]; preserve_steps.
  apply IH.
Qed.

Lemma preserves_fetchPlaylistTracks_loop fuel :
  forall playlist tracks url,
    preserves R (fetchPlaylistTracks_loop fuel playlist tracks url).
Proof.
  induction fuel as [|fuel IH]; intros playlist tracks url;
    cbn [fetchPlaylistTracks_loop]; preserve_steps.
  apply IH.
Qed.

Lemma preserves_fetchSavedTracks_loop fuel :
  forall tracks url, preserves R (fetchSavedTracks_loop fuel tracks url).
Proof.
  induction fuel as [|fuel IH]; intros tracks url;
    cbn [fetchSavedTracks_loop]; preserve_steps.
  apply IH.
Qed.

End Preserve.

Lemma fetch_only_refl w : fetch_only w w.
Proof.
  unfold fetch_only. repeat split.
  exists []. now rewrite app_nil_r.
Qed.

Lemma fetch_only_trans w1 w2 w3 :
  fetch_only w1 w2 -> fetch_only w2 w3 -> fetch_only w1 w3.
Proof.
  intros [Hf1 [Hl1 [Hd1 [Hs1 [[m1 Hr1] Hp1]]]]] [Hf2 [Hl2 [Hd2 [Hs2 [[m2 Hr2] Hp2]]]]].
  unfold fetch_only. repeat split; try congruence.
  exists (m1 ++ m2). now rewrite Hr2, Hr1, app_assoc.
Qed.

Lemma fetch_only_request url w : fetch_only w (with_request url w).
Proof.
  unfold fetch_only. repeat split. exists [url]. reflexivity.
Qed.

Lemma fetch_only_text line w : fetch_only w (with_output (Text line) w).
Proof.
  unfold fetch_only. repeat split.
  - exists []. cbn [requests with_output]. now rewrite app_nil_r.
  - cbn [stdout with_output]. now rewrite rev_unit.
Qed.

(** X1.  However a fetcher ends (with a result, with an error or in a
    panic), it has written no file, logged nothing, made no folder and
    not slept; the requests made before are still the beginning of the
    request log, and no authorization prompt was printed. *)
Theorem X1_fetchers_only_request_and_print :
  forall (fuel : nat) (w w' : World),
    (final_world (fetchPlaylists fuel w) = Some w' -> fetch_only w w')
    /\ (forall playlist : Playlist,
           final_world (fetchPlaylistTracks fuel playlist w) = Some w' ->
           fetch_only w w')
    /\ (final_world (fetchSavedTracks fuel w) = Some w' -> fetch_only w w').
Proof.
  intros fuel w w'. split; [|split].
  - apply (@preserves_fetchPlaylists_loop fetch_only
             fetch_only_refl fetch_only_trans fetch_only_request fetch_only_text).
  - intros playlist.
    apply (@preserves_fetchPlaylistTracks_loop fetch_only
             fetch_only_refl fetch_only_trans fetch_only_request fetch_only_text).
  - apply (@preserves_fetchSavedTracks_loop fetch_only
             fetch_only_refl fetch_only_trans fetch_only_request fetch_only_text).
Qed.

Lemma X1_witness :
  fetch_only provider_world
    (with_output (Text "Fetched 3 playlists\n")
       (with_request playlists_page2_url
          (with_output (Text "Fetched 2 playlists\n")
             (with_request fetchPlaylists_url provider_world))))
  /\ fetch_only flaky_world
       (with_request rock_page2_url
          (with_output (Text "Fetched 1 tracks for playlist Rock / Metal. Total tracks: 1\n")
             (with_request (fetchPlaylistTracks_url rock) flaky_world)))
  /\ fetch_only fifty_world
       (with_request ""
          (with_output (Text "Fetched 50 saved tracks\n")
             (with_request fetchSavedTracks_url fifty_world))).
Proof.
  split; [|split].
  - apply (proj1 (X1_fetchers_only_request_and_print 2 provider_world _)).
    reflexivity.
  - apply (proj1 (proj2 (X1_fetchers_only_request_and_print 2 flaky_world _)) rock).
    reflexivity.
  - apply (proj2 (proj2 (X1_fetchers_only_request_and_print 2 fifty_world _))).
    reflexivity.
Defined.

(* ===================================================================== *)
(** ** A request that fails after some pages *)
(* ===================================================================== *)

Lemma open_chain_Forall (P : Type) (next : P -> string) url pages :
  url <> "" ->
  Forall (fun p => next p <> "") pages ->
  open_chain next url pages /\ walk_end next url pages <> "".
Proof.
  intros Hurl Hall. revert url Hurl.
  induction Hall as [|p rest Hp _ IH]; intros url Hurl; simpl.
  - split; [exact I | exact Hurl].
  - destruct (IH (next p) Hp) as [Hc He]. repeat split; assumption.
Qed.

(** Through served pages with cursors, a loop comes to stand on the cursor
    of the last page with all their items gathered, one request and one
    unit of fuel per page. *)
Lemma fetchPlaylists_loop_prefix :
  forall pages fuel playlists url w,
    serves json_Unmarshal_PlaylistPage PlaylistPage_Next
           (transport w) (requests w) url pages ->
    open_chain PlaylistPage_Next url pages ->
    exists w',
      fetchPlaylists_loop (List.length pages + fuel) playlists url w
        = fetchPlaylists_loop fuel (playlists ++ all_playlists pages)
            (walk_end PlaylistPage_Next url pages) w'
      /\ requests w' = requests w ++ walk_urls PlaylistPage_Next url pages
      /\ transport w' = transport w.
Proof.
  induction pages as [|p rest IH]; intros fuel playlists url w Hs Hc.
  - exists w. unfold all_playlists. simpl. rewrite !app_nil_r. repeat split.
  - destruct Hs as [[d [Hreply Hd]] Hrest]. destruct Hc as [Hurl Hc].
    cbn [List.length Nat.add fetchPlaylists_loop].
    rewrite (string_eqb_nonempty Hurl).
    served_round Hreply.
    unfold bind, ret, fmt_Printf, json_Unmarshal_PlaylistPage in *.
    destruct (as_PlaylistPage d) as [page derr]. simpl in Hd. subst page.
    match goal with
    | |- context [fetchPlaylists_loop (_ + fuel) ?acc ?u ?w1] =>
        destruct (IH fuel acc u w1) as [w' [Hrun [Hreq Htr]]]
    end; [exact Hrest | exact Hc |].
    exists w'. rewrite Hrun. split; [|split].
    + unfold all_playlists. simpl. now rewrite <- app_assoc.
    + rewrite Hreq. simpl. now rewrite <- app_assoc.
    + rewrite Htr. reflexivity.
Qed.

Lemma fetchPlaylistTracks_loop_prefix :
  forall pages fuel playlist tracks url w,
    serves json_Unmarshal_TracksPage TracksPage_Next
           (transport w) (requests w) url pages ->
    open_chain TracksPage_Next url pages ->
    exists w',
      fetchPlaylistTracks_loop (List.length pages + fuel) playlist tracks url w
        = fetchPlaylistTracks_loop fuel playlist (tracks ++ all_tracks pages)
            (walk_end TracksPage_Next url pages) w'
      /\ requests w' = requests w ++ walk_urls TracksPage_Next url pages
      /\ transport w' = transport w.
Proof.
  induction pages as [|p rest IH]; intros fuel playlist tracks url w Hs Hc.
  - exists w. unfold all_tracks. simpl. rewrite !app_nil_r. repeat split.
  - destruct Hs as [[d [Hreply Hd]] Hrest]. destruct Hc as [Hurl Hc].
    cbn [List.length Nat.add fetchPlaylistTracks_loop].
    rewrite (string_eqb_nonempty Hurl).
    served_round Hreply.
    unfold bind, ret, fmt_Printf, json_Unmarshal_TracksPage in *.
    destruct (as_TracksPage d) as [page derr]. simpl in Hd. subst page.
    match goal with
    | |- context [fetchPlaylistTracks_loop (_ + fuel) playlist ?acc ?u ?w1] =>
        destruct (IH fuel playlist acc u w1) as [w' [Hrun [Hreq Htr]]]
    end; [exact Hrest | exact Hc |].
    exists w'. rewrite Hrun. split; [|split].
    + unfold all_tracks. simpl. now rewrite <- app_assoc.
    + rewrite Hreq. simpl. now rewrite <- app_assoc.
    + rewrite Htr. reflexivity.
Qed.

(** The saved-tracks loop goes through full pages whatever their
    cursors are. *)
Lemma fetchSavedTracks_loop_prefix :
  forall full fuel tracks url w,
    serves json_Unmarshal_TracksPage TracksPage_Next
           (transport w) (requests w) url full ->
    Forall (fun p => short_page p = false) full ->
    exists w',
      fetchSavedTracks_loop (List.length full + fuel) tracks url w
        = fetchSavedTracks_loop fuel (tracks ++ all_tracks full)
            (walk_end TracksPage_Next url full) w'
      /\ requests w' = requests w ++ walk_urls TracksPage_Next url full
      /\ transport w' = transport w.
Proof.
  induction full as [|p rest IH]; intros fuel tracks url w Hs Hfull.
  - exists w. unfold all_tracks. simpl. rewrite !app_nil_r. repeat split.
  - destruct Hs as [[d [Hreply Hd]] Hrest].
    apply Forall_cons_iff in Hfull. destruct Hfull as [Hp Hfull].
    cbn [List.length Nat.add].
    rewrite (@fetchSavedTracks_loop_full_page _ tracks url w d Hreply)
      by (rewrite Hd; exact Hp).
    rewrite Hd.
    match goal with
    | |- context [fetchSavedTracks_loop (_ + fuel) ?acc ?u ?w1] =>
        destruct (IH fuel acc u w1) as [w' [Hrun [Hreq Htr]]]
    end; [exact Hrest | exact Hfull |].
    exists w'. rewrite Hrun. split; [|split].
    + unfold all_tracks. simpl. now rewrite <- app_assoc.
    + rewrite Hreq. simpl. now rewrite <- app_assoc.
    + rewrite Htr. reflexivity.
Qed.

Lemma fetchPlaylists_loop_unreadable :
  forall fuel playlists url w err,
    url <> "" ->
    transport w (requests w) url = Served {| Body := Err err |} ->
    fetchPlaylists_loop (S fuel) playlists url w
      = Returns (Err (Wrap err "failed to read playlists response"))
                (with_request url w).
Proof.
  intros fuel playlists url w err Hurl Hreply.
  cbn [fetchPlaylists_loop]. rewrite (string_eqb_nonempty Hurl).
  served_round Hreply. reflexivity.
Qed.

Lemma fetchPlaylistTracks_loop_unreadable :
  forall fuel playlist tracks url w err,
    url <> "" ->
    transport w (requests w) url = Served {| Body := Err err |} ->
    fetchPlaylistTracks_loop (S fuel) playlist tracks url w
      = Returns (Err (Wrap err "failed to read tracks response"))
                (with_request url w).
Proof.
  intros fuel playlist tracks url w err Hurl Hreply.
  cbn [fetchPlaylistTracks_loop]. rewrite (string_eqb_nonempty Hurl).
  served_round Hreply. reflexivity.
Qed.

Lemma fetchSavedTracks_loop_unreadable :
  forall fuel tracks url w err,
    transport w (requests w) url = Served {| Body := Err err |} ->
    fetchSavedTracks_loop (S fuel) tracks url w
      = Returns (Err (Wrap err "failed to read saved tracks response"))
                (with_request url w).
Proof.
  intros fuel tracks url w err Hreply.
  cbn [fetchSavedTracks_loop]. served_round Hreply. reflexivity.
Qed.

Lemma fetchPlaylists_loop_redirect :
  forall fuel playlists url w resp err,
    url <> "" ->
    transport w (requests w) url = RedirectFailed resp err ->
    fetchPlaylists_loop (S fuel) playlists url w
      = Returns (Err (Wrap err "failed to fetch playlists")) (with_request url w).
Proof.
  intros fuel playlists url w resp err Hurl Hreply.
  cbn [fetchPlaylists_loop]. rewrite (string_eqb_nonempty Hurl).
  unfold bind at 1, client_Get at 1. rewrite Hreply. reflexivity.
Qed.

Lemma fetchPlaylistTracks_loop_redirect :
  forall fuel playlist tracks url w resp err,
    url <> "" ->
    transport w (requests w) url = RedirectFailed resp err ->
    fetchPlaylistTracks_loop (S fuel) playlist tracks url w
      = Returns (Err (Wrap err ("failed to fetch tracks for playlist "
                                  ++ Playlist_Name playlist)))
                (with_request url w).
Proof.
  intros fuel playlist tracks url w resp err Hurl Hreply.
  cbn [fetchPlaylistTracks_loop]. rewrite (string_eqb_nonempty Hurl).
  unfold bind at 1, client_Get at 1. rewrite Hreply. reflexivity.
Qed.

Lemma fetchSavedTracks_loop_redirect :
  forall fuel tracks url w resp err,
    transport w (requests w) url = RedirectFailed resp err ->
    fetchSavedTracks_loop (S fuel) tracks url w
      = Returns (Err (Wrap err "failed to fetch saved tracks")) (with_request url w).
Proof.
  intros fuel tracks url w resp err Hreply.
  cbn [fetchSavedTracks_loop].
  unfold bind at 1, client_Get at 1. rewrite Hreply. reflexivity.
Qed.

Lemma short_page_full p :
  50 <= List.length (TracksPage_Items p) -> short_page p = false.
Proof. intros H. unfold short_page, savedTracks_limit. now apply Nat.ltb_ge. Qed.

(** Finish a walk whose next request fails: [Hprefix] brings the loop
    to that request, [step] says what the loop does with its reply. *)
Ltac after_prefix Hprefix step Hfail :=
  destruct Hprefix as [w1 [Hrun [Hreq Htr]]];
  rewrite Hrun;
  rewrite <- Htr, <- Hreq in Hfail;
  eexists; split;
  [ eapply step; eassumption
  | cbn [requests with_request]; rewrite Hreq; now rewrite app_assoc ].

(** X2.  When the body of some page cannot be read (after any number of
    pages served with cursors; for the saved tracks, after any number of
    full pages), each fetcher returns the read error wrapped in its own
    message and none of the items gathered so far, having asked once per
    page served and once more. *)
Theorem X2_unreadable_body_returns_wrapped_error :
  forall (w : World) (fuel : nat) (err : error),
    (forall pages : list PlaylistPage,
        serves json_Unmarshal_PlaylistPage PlaylistPage_Next
               (transport w) (requests w) fetchPlaylists_url pages ->
        Forall (fun p => PlaylistPage_Next p <> "") pages ->
        transport w (requests w ++ walk_urls PlaylistPage_Next fetchPlaylists_url pages)
                  (walk_end PlaylistPage_Next fetchPlaylists_url pages)
          = Served {| Body := Err err |} ->
        exists w',
          fetchPlaylists (List.length pages + S fuel) w
            = Returns (Err (Wrap err "failed to read playlists response")) w'
          /\ requests w'
             = requests w ++ walk_urls PlaylistPage_Next fetchPlaylists_url pages
                         ++ [walk_end PlaylistPage_Next fetchPlaylists_url pages])
    /\
    (forall (playlist : Playlist) (pages : list TracksPage),
        let url := fetchPlaylistTracks_url playlist in
        serves json_Unmarshal_TracksPage TracksPage_Next
               (transport w) (requests w) url pages ->
        Forall (fun p => TracksPage_Next p <> "") pages ->
        transport w (requests w ++ walk_urls TracksPage_Next url pages)
                  (walk_end TracksPage_Next url pages)
          = Served {| Body := Err err |} ->
        exists w',
          fetchPlaylistTracks (List.length pages + S fuel) playlist w
            = Returns (Err (Wrap err "failed to read tracks response")) w'
          /\ requests w'
             = requests w ++ walk_urls TracksPage_Next url pages
                         ++ [walk_end TracksPage_Next url pages])
    /\
    (forall full : list TracksPage,
        serves json_Unmarshal_TracksPage TracksPage_Next
               (transport w) (requests w) fetchSavedTracks_url full ->
        Forall (fun p => 50 <= List.length (TracksPage_Items p)) full ->
        transport w (requests w ++ walk_urls TracksPage_Next fetchSavedTracks_url full)
                  (walk_end TracksPage_Next fetchSavedTracks_url full)
          = Served {| Body := Err err |} ->
        exists w',
          fetchSavedTracks (List.length full + S fuel) w
            = Returns (Err (Wrap err "failed to read saved tracks response")) w'
          /\ requests w'
             = requests w ++ walk_urls TracksPage_Next fetchSavedTracks_url full
                         ++ [walk_end TracksPage_Next fetchSavedTracks_url full]).
Proof.
  intros w fuel err. split; [|split].
  - intros pages Hs Hall Hfail.
    destruct (@open_chain_Forall _ PlaylistPage_Next fetchPlaylists_url pages)
      as [Hc He]; [discriminate | exact Hall |].
    unfold fetchPlaylists.
    after_prefix (@fetchPlaylists_loop_prefix pages (S fuel) [] _ w Hs Hc)
                 fetchPlaylists_loop_unreadable Hfail.
  - intros playlist pages url Hs Hall Hfail.
    destruct (@open_chain_Forall _ TracksPage_Next url pages)
      as [Hc He]; [discriminate | exact Hall |].
    unfold fetchPlaylistTracks. fold url.
    after_prefix (@fetchPlaylistTracks_loop_prefix pages (S fuel) playlist [] _ w Hs Hc)
                 fetchPlaylistTracks_loop_unreadable Hfail.
  - intros full Hs Hall Hfail.
    assert (Hfull : Forall (fun p => short_page p = false) full).
    { eapply Forall_impl; [|exact Hall]. intros p. apply short_page_full. }
    unfold fetchSavedTracks.
    after_prefix (@fetchSavedTracks_loop_prefix full (S fuel) [] _ w Hs Hfull)
                 fetchSavedTracks_loop_unreadable Hfail.
Qed.

Lemma X2_witness :
  (exists w',
      fetchPlaylists 2 truncating_world
        = Returns (Err (Wrap (New "unexpected EOF") "failed to read playlists response")) w'
      /\ requests w' = [fetchPlaylists_url; playlists_page2_url])
  /\ (exists w',
         fetchPlaylistTracks 2 rock truncating_world
           = Returns (Err (Wrap (New "unexpected EOF") "failed to read tracks response")) w'
         /\ requests w' = [fetchPlaylistTracks_url rock; rock_page2_url])
  /\ (exists w',
         fetchSavedTracks 2 truncating_world
           = Returns (Err (Wrap (New "unexpected EOF")
                                "failed to read saved tracks response")) w'
         /\ requests w' = [fetchSavedTracks_url; saved_page2_url]).
Proof.
  destruct (X2_unreadable_body_returns_wrapped_error
              truncating_world 0 (New "unexpected EOF")) as [HP [HT HS]].
  split; [|split].
  - apply (HP [playlists_page1]).
    + simpl. split; [|exact I].
      exists (playlists_json playlists_page1). split; reflexivity.
    + constructor; [discriminate | constructor].
    + reflexivity.
  - apply (HT rock [rock_page1]).
    + simpl. split; [|exact I].
      exists (tracks_json rock_page1). split; reflexivity.
    + constructor; [discriminate | constructor].
    + reflexivity.
  - apply (HS [saved_page1]).
    + simpl. split; [|exact I].
      exists (tracks_json saved_page1). split; reflexivity.
    + constructor; [vm_compute; lia | constructor].
    + reflexivity.
Defined.

(** X3.  When the redirect policy stops some request (the one failure on
    which [client.Get] hands back a response together with the error),
    each fetcher returns that error wrapped in its fetch message, naming
    the playlist where there is one, and none of the items gathered so
    far. *)
Theorem X3_redirect_failure_returns_wrapped_error :
  forall (w : World) (fuel : nat) (resp : Response) (err : error),
    (forall pages : list PlaylistPage,
        serves json_Unmarshal_PlaylistPage PlaylistPage_Next
               (transport w) (requests w) fetchPlaylists_url pages ->
        Forall (fun p => PlaylistPage_Next p <> "") pages ->
        transport w (requests w ++ walk_urls PlaylistPage_Next fetchPlaylists_url pages)
                  (walk_end PlaylistPage_Next fetchPlaylists_url pages)
          = RedirectFailed resp err ->
        exists w',
          fetchPlaylists (List.length pages + S fuel) w
            = Returns (Err (Wrap err "failed to fetch playlists")) w'
          /\ requests w'
             = requests w ++ walk_urls PlaylistPage_Next fetchPlaylists_url pages
                         ++ [walk_end PlaylistPage_Next fetchPlaylists_url pages])
    /\
    (forall (playlist : Playlist) (pages : list TracksPage),
        let url := fetchPlaylistTracks_url playlist in
        serves json_Unmarshal_TracksPage TracksPage_Next
               (transport w) (requests w) url pages ->
        Forall (fun p => TracksPage_Next p <> "") pages ->
        transport w (requests w ++ walk_urls TracksPage_Next url pages)
                  (walk_end TracksPage_Next url pages)
          = RedirectFailed resp err ->
        exists w',
          fetchPlaylistTracks (List.length pages + S fuel) playlist w
            = Returns (Err (Wrap err ("failed to fetch tracks for playlist "
                                        ++ Playlist_Name playlist))) w'
          /\ requests w'
             = requests w ++ walk_urls TracksPage_Next url pages
                         ++ [walk_end TracksPage_Next url pages])
    /\
    (forall full : list TracksPage,
        serves json_Unmarshal_TracksPage TracksPage_Next
               (transport w) (requests w) fetchSavedTracks_url full ->
        Forall (fun p => 50 <= List.length (TracksPage_Items p)) full ->
        transport w (requests w ++ walk_urls TracksPage_Next fetchSavedTracks_url full)
                  (walk_end TracksPage_Next fetchSavedTracks_url full)
          = RedirectFailed resp err ->
        exists w',
          fetchSavedTracks (List.length full + S fuel) w
            = Returns (Err (Wrap err "failed to fetch saved tracks")) w'
          /\ requests w'
             = requests w ++ walk_urls TracksPage_Next fetchSavedTracks_url full
                         ++ [walk_end TracksPage_Next fetchSavedTracks_url full]).
Proof.
  intros w fuel resp err. split; [|split].
  - intros pages Hs Hall Hfail.
    destruct (@open_chain_Forall _ PlaylistPage_Next fetchPlaylists_url pages)
      as [Hc He]; [discriminate | exact Hall |].
    unfold fetchPlaylists.
    after_prefix (@fetchPlaylists_loop_prefix pages (S fuel) [] _ w Hs Hc)
                 fetchPlaylists_loop_redirect Hfail.
  - intros playlist pages url Hs Hall Hfail.
    destruct (@open_chain_Forall _ TracksPage_Next url pages)
      as [Hc He]; [discriminate | exact Hall |].
    unfold fetchPlaylistTracks. fold url.
    after_prefix (@fetchPlaylistTracks_loop_prefix pages (S fuel) playlist [] _ w Hs Hc)
                 fetchPlaylistTracks_loop_redirect Hfail.
  - intros full Hs Hall Hfail.
    assert (Hfull : Forall (fun p => short_page p = false) full).
    { eapply Forall_impl; [|exact Hall]. intros p. apply short_page_full. }
    unfold fetchSavedTracks.
    after_prefix (@fetchSavedTracks_loop_prefix full (S fuel) [] _ w Hs Hfull)
                 fetchSavedTracks_loop_redirect Hfail.
Qed.

Lemma X3_witness :
  (exists w',
      fetchPlaylists 2 redirecting_world
        = Returns (Err (Wrap too_many_redirects "failed to fetch playlists")) w'
      /\ requests w' = [fetchPlaylists_url; playlists_page2_url])
  /\ (exists w',
         fetchPlaylistTracks 2 rock redirecting_world
           = Returns (Err (Wrap too_many_redirects
                                "failed to fetch tracks for playlist Rock / Metal")) w'
         /\ requests w' = [fetchPlaylistTracks_url rock; rock_page2_url])
  /\ (exists w',
         fetchSavedTracks 2 redirecting_world
           = Returns (Err (Wrap too_many_redirects "failed to fetch saved tracks")) w'
         /\ requests w' = [fetchSavedTracks_url; saved_page2_url]).
Proof.
  destruct (X3_redirect_failure_returns_wrapped_error
              redirecting_world 0
              {| Body := Err (New "http: read on closed response body") |}
              too_many_redirects) as [HP [HT HS]].
  split; [|split].
  - apply (HP [playlists_page1]).
    + simpl. split; [|exact I].
      exists (playlists_json playlists_page1). split; reflexivity.
    + constructor; [discriminate | constructor].
    + reflexivity.
  - apply (HT rock [rock_page1]).
    + simpl. split; [|exact I].
      exists (tracks_json rock_page1). split; reflexivity.
    + constructor; [discriminate | constructor].
    + reflexivity.
  - apply (HS [saved_page1]).
    + simpl. split; [|exact I].
      exists (tracks_json saved_page1). split; reflexivity.
    + constructor; [vm_compute; lia | constructor].
    + reflexivity.
Defined.

(** X4.  When some request comes back with an error and no response
    (after any number of pages served), [fetchPlaylists] and
    [fetchPlaylistTracks] stop in a nil dereference at
    [resp.Body.Close()] and return nothing, while [fetchSavedTracks]
    returns the error wrapped and no items; none of them asks again. *)
Theorem X4_request_without_response :
  forall (w : World) (fuel : nat) (err : error),
    (forall pages : list PlaylistPage,
        serves json_Unmarshal_PlaylistPage PlaylistPage_Next
               (transport w) (requests w) fetchPlaylists_url pages ->
        Forall (fun p => PlaylistPage_Next p <> "") pages ->
        transport w (requests w ++ walk_urls PlaylistPage_Next fetchPlaylists_url pages)
                  (walk_end PlaylistPage_Next fetchPlaylists_url pages)
          = Failed err ->
        exists w',
          fetchPlaylists (List.length pages + S fuel) w = Stops NilDereference w'
          /\ requests w'
             = requests w ++ walk_urls PlaylistPage_Next fetchPlaylists_url pages
                         ++ [walk_end PlaylistPage_Next fetchPlaylists_url pages])
    /\
    (forall (playlist : Playlist) (pages : list TracksPage),
        let url := fetchPlaylistTracks_url playlist in
        serves json_Unmarshal_TracksPage TracksPage_Next
               (transport w) (requests w) url pages ->
        Forall (fun p => TracksPage_Next p <> "") pages ->
        transport w (requests w ++ walk_urls TracksPage_Next url pages)
                  (walk_end TracksPage_Next url pages)
          = Failed err ->
        exists w',
          fetchPlaylistTracks (List.length pages + S fuel) playlist w
            = Stops NilDereference w'
          /\ requests w'
             = requests w ++ walk_urls TracksPage_Next url pages
                         ++ [walk_end TracksPage_Next url pages])
    /\
    (forall full : list TracksPage,
        serves json_Unmarshal_TracksPage TracksPage_Next
               (transport w) (requests w) fetchSavedTracks_url full ->
        Forall (fun p => 50 <= List.length (TracksPage_Items p)) full ->
        transport w (requests w ++ walk_urls TracksPage_Next fetchSavedTracks_url full)
                  (walk_end TracksPage_Next fetchSavedTracks_url full)
          = Failed err ->
        exists w',
          fetchSavedTracks (List.length full + S fuel) w
            = Returns (Err (Wrap err "failed to fetch saved tracks")) w'
          /\ requests w'
             = requests w ++ walk_urls TracksPage_Next fetchSavedTracks_url full
                         ++ [walk_end TracksPage_Next fetchSavedTracks_url full]).
Proof.
  intros w fuel err. split; [|split].
  - intros pages Hs Hall Hfail.
    destruct (@open_chain_Forall _ PlaylistPage_Next fetchPlaylists_url pages)
      as [Hc He]; [discriminate | exact Hall |].
    unfold fetchPlaylists.
    after_prefix (@fetchPlaylists_loop_prefix pages (S fuel) [] _ w Hs Hc)
                 fetchPlaylists_loop_Get_failed Hfail.
  - intros playlist pages url Hs Hall Hfail.
    destruct (@open_chain_Forall _ TracksPage_Next url pages)
      as [Hc He]; [discriminate | exact Hall |].
    unfold fetchPlaylistTracks. fold url.
    after_prefix (@fetchPlaylistTracks_loop_prefix pages (S fuel) playlist [] _ w Hs Hc)
                 fetchPlaylistTracks_loop_Get_failed Hfail.
  - intros full Hs Hall Hfail.
    assert (Hfull : Forall (fun p => short_page p = false) full).
    { eapply Forall_impl; [|exact Hall]. intros p. apply short_page_full. }
    unfold fetchSavedTracks.
    after_prefix (@fetchSavedTracks_loop_prefix full (S fuel) [] _ w Hs Hfull)
                 fetchSavedTracks_loop_Get_failed Hfail.
Qed.

Lemma X4_witness :
  (exists w',
      fetchPlaylists 2 flaky_world = Stops NilDereference w'
      /\ requests w' = [fetchPlaylists_url; playlists_page2_url])
  /\ (exists w',
         fetchPlaylistTracks 2 rock flaky_world = Stops NilDereference w'
         /\ requests w' = [fetchPlaylistTracks_url rock; rock_page2_url])
  /\ (exists w',
         fetchSavedTracks 2 flaky_world
           = Returns (Err (Wrap connection_reset "failed to fetch saved tracks")) w'
         /\ requests w' = [fetchSavedTracks_url; saved_page2_url]).
Proof.
  destruct (X4_request_without_response flaky_world 0 connection_reset)
    as [HP [HT HS]].
  split; [|split].
  - apply (HP [playlists_page1]).
    + simpl. split; [|exact I].
      exists (playlists_json playlists_page1). split; reflexivity.
    + constructor; [discriminate | constructor].
    + reflexivity.
  - apply (HT rock [rock_page1]).
    + simpl. split; [|exact I].
      exists (tracks_json rock_page1). split; reflexivity.
    + constructor; [discriminate | constructor].
    + reflexivity.
  - apply (HS [saved_page1]).
    + simpl. split; [|exact I].
      exists (tracks_json saved_page1). split; reflexivity.
    + constructor; [vm_compute; lia | constructor].
    + reflexivity.
Defined.

(* ===================================================================== *)
(** ** A service that never ends the collection *)
(* ===================================================================== *)

Lemma fetchPlaylists_loop_endless :
  forall fuel playlists url w,
    url <> "" ->
    (forall hist u, exists d,
        transport w hist u = Served {| Body := Ok d |}
        /\ PlaylistPage_Next (fst (json_Unmarshal_PlaylistPage d)) <> "") ->
    fetchPlaylists_loop fuel playlists url w = OutOfFuel.
Proof.
  induction fuel as [|fuel IH]; intros playlists url w Hurl Hall;
    cbn [fetchPlaylists_loop]; rewrite (string_eqb_nonempty Hurl); [reflexivity|].
  destruct (Hall (requests w) url) as [d [Hreply Hnext]].
  served_round Hreply.
  unfold bind, ret, fmt_Printf, json_Unmarshal_PlaylistPage in *.
  destruct (as_PlaylistPage d) as [page derr]. simpl in Hnext.
  apply IH; [exact Hnext | exact Hall].
Qed.

Lemma fetchPlaylistTracks_loop_endless :
  forall fuel playlist tracks url w,
    url <> "" ->
    (forall hist u, exists d,
        transport w hist u = Served {| Body := Ok d |}
        /\ TracksPage_Next (fst (json_Unmarshal_TracksPage d)) <> "") ->
    fetchPlaylistTracks_loop fuel playlist tracks url w = OutOfFuel.
Proof.
  induction fuel as [|fuel IH]; intros playlist tracks url w Hurl Hall;
    cbn [fetchPlaylistTracks_loop]; rewrite (string_eqb_nonempty Hurl); [reflexivity|].
  destruct (Hall (requests w) url) as [d [Hreply Hnext]].
  served_round Hreply.
  unfold bind, ret, fmt_Printf, json_Unmarshal_TracksPage in *.
  destruct (as_TracksPage d) as [page derr]. simpl in Hnext.
  apply IH; [exact Hnext | exact Hall].
Qed.

Lemma fetchSavedTracks_loop_endless :
  forall fuel tracks url w,
    (forall hist u, exists d,
        transport w hist u = Served {| Body := Ok d |}
        /\ 50 <= List.length (TracksPage_Items (fst (json_Unmarshal_TracksPage d)))) ->
    fetchSavedTracks_loop fuel tracks url w = OutOfFuel.
Proof.
  induction fuel as [|fuel IH]; intros tracks url w Hall; [reflexivity|].
  destruct (Hall (requests w) url) as [d [Hreply Hfull]].
  rewrite (@fetchSavedTracks_loop_full_page fuel tracks url w d Hreply)
    by (apply short_page_full; exact Hfull).
  apply IH. exact Hall.
Qed.

(** X5.  The fetchers bound neither the number of pages nor the cursors
    they follow.  Against a service that answers every request with a
    page carrying a cursor, [fetchPlaylists] and [fetchPlaylistTracks] do
    not come back, whatever the number of rounds allowed; the same holds
    for [fetchSavedTracks] against a service whose pages are always
    full. *)
Theorem X5_endless_service_is_followed_forever :
  forall (fuel : nat) (w : World),
    ((forall hist u, exists d,
         transport w hist u = Served {| Body := Ok d |}
         /\ PlaylistPage_Next (fst (json_Unmarshal_PlaylistPage d)) <> "") ->
     fetchPlaylists fuel w = OutOfFuel)
    /\
    ((forall hist u, exists d,
         transport w hist u = Served {| Body := Ok d |}
         /\ TracksPage_Next (fst (json_Unmarshal_TracksPage d)) <> "") ->
     forall playlist : Playlist, fetchPlaylistTracks fuel playlist w = OutOfFuel)
    /\
    ((forall hist u, exists d,
         transport w hist u = Served {| Body := Ok d |}
         /\ 50 <= List.length (TracksPage_Items (fst (json_Unmarshal_TracksPage d)))) ->
     fetchSavedTracks fuel w = OutOfFuel).
Proof.
  intros fuel w. split; [|split].
  - intros Hall. apply fetchPlaylists_loop_endless; [discriminate | exact Hall].
  - intros Hall playlist.
    apply fetchPlaylistTracks_loop_endless; [discriminate | exact Hall].
  - intros Hall. apply fetchSavedTracks_loop_endless. exact Hall.
Qed.

Lemma X5_witness :
  fetchPlaylists 100 looping_world = OutOfFuel
  /\ fetchPlaylistTracks 100 rock looping_world = OutOfFuel
  /\ fetchSavedTracks 100 looping_world = OutOfFuel.
Proof.
  destruct (X5_endless_service_is_followed_forever 100 looping_world)
    as [HP [HT HS]].
  split; [|split].
  - apply HP. intros hist u. exists (playlists_json looping_page).
    split; [reflexivity | discriminate].
  - apply HT. intros hist u. exists (playlists_json looping_page).
    split; [reflexivity | discriminate].
  - apply HS. intros hist u. exists (playlists_json looping_page).
    split; [reflexivity | vm_compute; lia].
Defined.

(* ===================================================================== *)
(** ** The shape of a safe file name *)
(* ===================================================================== *)

Lemma in_class_not_hyphen c : in_class c = true -> Ascii.eqb c "-" = false.
Proof.
  intros Hc. destruct (Ascii.eqb_spec c "-") as [->|_]; [|reflexivity].
  vm_compute in Hc. discriminate Hc.
Qed.

Lemma in_class_not_slash c : in_class c = true -> Ascii.eqb c "/" = false.
Proof.
  intros Hc. destruct (Ascii.eqb_spec c "/") as [->|_]; [|reflexivity].
  vm_compute in Hc. discriminate Hc.
Qed.

Lemma ReplaceAllString_from_alphabet s :
  forall in_match c,
    In c (list_ascii_of_string (ReplaceAllString_from in_match s)) ->
    in_class c = true \/ c = "-"%char.
Proof.
  induction s as [|a rest IH]; intros in_match c; cbn [ReplaceAllString_from].
  - intros [].
  - destruct (in_class a) eqn:Ha; [|destruct in_match];
      cbn [list_ascii_of_string In].
    + intros [<-|Hin]; [left; exact Ha | exact (IH _ _ Hin)].
    + apply IH.
    + intros [<-|Hin]; [right; reflexivity | exact (IH _ _ Hin)].
Qed.

Lemma has_slash_In s : has_slash s = true -> In "/"%char (list_ascii_of_string s).
Proof.
  induction s as [|a rest IH]; cbn [has_slash list_ascii_of_string In];
    [discriminate|].
  destruct (Ascii.eqb_spec a "/") as [->|_]; cbn [orb].
  - intros _. left. reflexivity.
  - intros H. right. exact (IH H).
Qed.

Lemma ReplaceAllString_no_slash s : has_slash (ReplaceAllString s) = false.
Proof.
  destruct (has_slash (ReplaceAllString s)) eqn:E; [|reflexivity].
  apply has_slash_In in E. unfold ReplaceAllString in E.
  apply ReplaceAllString_from_alphabet in E.
  destruct E as [E|E]; [vm_compute in E|]; discriminate E.
Qed.

(** X6.  A safe file name is made of letters, digits, underscores and
    hyphens only.  It holds no path separator, so the file always lies
    directly in [backups], whatever the playlist is called. *)
Theorem X6_safeFilename_alphabet :
  forall name : string,
    (forall c : ascii,
        In c (list_ascii_of_string (safeFilename name)) ->
        in_class c = true \/ c = "-"%char)
    /\ has_slash (safeFilename name) = false
    /\ ~ In "."%char (list_ascii_of_string (safeFilename name)).
Proof.
  intros name. unfold safeFilename. split; [|split].
  - intros c. apply ReplaceAllString_from_alphabet.
  - apply ReplaceAllString_no_slash.
  - intros Hin. apply ReplaceAllString_from_alphabet in Hin.
    destruct Hin as [E|E]; [vm_compute in E|]; discriminate E.
Qed.

(** The scanner never writes two hyphens in a row, and inside a match
    its output does not begin with one. *)
Lemma ReplaceAllString_from_hyphens s :
  forall in_match,
    double_hyphen (ReplaceAllString_from in_match s) = false
    /\ match ReplaceAllString_from true s with
       | String c _ => Ascii.eqb c "-" = false
       | EmptyString => True
       end.
Proof.
  induction s as [|a rest IH]; intros in_match; cbn [ReplaceAllString_from].
  - split; [reflexivity | exact I].
  - destruct (IH false) as [Hout _]. destruct (IH true) as [Hin Hhead].
    destruct (in_class a) eqn:Ha.
    + split; [|exact (in_class_not_hyphen _ Ha)].
      cbn [double_hyphen].
      destruct (ReplaceAllString_from false rest) as [|c' r'] eqn:E; [reflexivity|].
      rewrite (in_class_not_hyphen _ Ha). cbn [andb orb]. exact Hout.
    + split; [|exact Hhead].
      destruct in_match; [exact Hin|].
      cbn [double_hyphen].
      destruct (ReplaceAllString_from true rest) as [|c' r'] eqn:E; [reflexivity|].
      rewrite Hhead. cbn. exact Hin.
Qed.

(** Scanning a scanned string changes nothing. *)
Lemma ReplaceAllString_from_twice s :
  forall in_match,
    ReplaceAllString_from false (ReplaceAllString_from in_match s)
    = ReplaceAllString_from in_match s
    /\ ReplaceAllString_from true (ReplaceAllString_from true s)
       = ReplaceAllString_from true s.
Proof.
  induction s as [|a rest IH]; intros in_match; cbn [ReplaceAllString_from].
  - split; reflexivity.
  - destruct (IH false) as [Hff _]. destruct (IH true) as [Hft Htt].
    destruct (in_class a) eqn:Ha.
    + cbn [ReplaceAllString_from]. rewrite Ha, Hff. split; reflexivity.
    + destruct in_match.
      * split; [exact Hft | exact Htt].
      * split; [|exact Htt].
        cbn [ReplaceAllString_from].
        replace (in_class "-") with false by reflexivity.
        now rewrite Htt.
Qed.

(** X7.  A safe file name never holds two hyphens in a row, and it is
    its own safe file name: deriving a name from a derived name changes
    nothing. *)
Theorem X7_safeFilename_is_stable :
  forall name : string,
    double_hyphen (safeFilename name) = false
    /\ safeFilename (safeFilename name) = safeFilename name.
Proof.
  intros name. split.
  - unfold safeFilename, ReplaceAllString.
    exact (proj1 (ReplaceAllString_from_hyphens _ false)).
  - unfold safeFilename at 1.
    rewrite filepath_Clean_no_slash.
    + unfold safeFilename, ReplaceAllString.
      exact (proj1 (ReplaceAllString_from_twice _ false)).
    + unfold safeFilename.
      apply ReplaceAllString_nonempty, filepath_Clean_nonempty.
    + unfold safeFilename. apply ReplaceAllString_no_slash.
Qed.

(* ===================================================================== *)
(** ** Backup writer and token store *)
(* ===================================================================== *)

Lemma lookup_file_head name d fs : lookup_file name ((name, d) :: fs) = Some d.
Proof. cbn [lookup_file]. now rewrite String.eqb_refl. Qed.

Lemma lookup_file_other name other d fs :
  other <> name -> lookup_file other ((name, d) :: fs) = lookup_file other fs.
Proof.
  intros Hne. cbn [lookup_file].
  destruct (String.eqb_spec name other) as [E|_]; [congruence | reflexivity].
Qed.

(** A save that meets no file-system error adds the file on top of the
    others and leaves the rest of the world alone, but for the folder it
    may have had to make. *)
Lemma saveJSONToFile_ok name data w :
  folder_ready w ->
  write_error w (backup_filename name) = None ->
  exists w',
    saveJSONToFile name data w = Returns tt w'
    /\ files w' = (backup_filename name, ItemsJSON data) :: files w
    /\ existsb (String.eqb "backups") (dirs w') = true
    /\ (existsb (String.eqb "backups") (dirs w) = true -> dirs w' = dirs w)
    /\ write_error w' = write_error w /\ mkdir_error w' = mkdir_error w
    /\ requests w' = requests w /\ logged w' = logged w /\ slept w' = slept w
    /\ stdout w' = stdout w /\ exchanged w' = exchanged w
    /\ transport w' = transport w.
Proof.
  intros Hdir Hwrite.
  unfold saveJSONToFile, bind at 1, os_Stat_IsNotExist.
  destruct (existsb (String.eqb "backups") (dirs w)) eqn:Hex; cbn [negb].
  - unfold bind at 1, ret, bind at 1, ioutil_WriteFile. rewrite Hwrite.
    eexists. split; [reflexivity|]. repeat split; trivial.
  - destruct Hdir as [Hdir|Hmk]; [congruence|].
    unfold bind at 1, bind at 1, os_Mkdir. rewrite Hmk.
    unfold ret, bind at 1, ioutil_WriteFile. cbn [write_error with_dir]. rewrite Hwrite.
    eexists. split; [reflexivity|]. repeat split; trivial.
    intros E. congruence.
Qed.

(** X8.  When the backup folder exists or can be made and the write
    succeeds, [saveJSONToFile] returns with the data readable under
    [backups/<safe name>.json], every other file as it was, the folder in
    place (made only if it was missing), and nothing logged. *)
Theorem X8_saveJSONToFile_writes_the_file :
  forall (name : string) (data : list Item) (w : World),
    folder_ready w ->
    write_error w (backup_filename name) = None ->
    exists w',
      saveJSONToFile name data w = Returns tt w'
      /\ lookup_file (backup_filename name) (files w') = Some (ItemsJSON data)
      /\ (forall other, other <> backup_filename name ->
                        lookup_file other (files w') = lookup_file other (files w))
      /\ existsb (String.eqb "backups") (dirs w') = true
      /\ (existsb (String.eqb "backups") (dirs w) = true -> dirs w' = dirs w)
      /\ logged w' = logged w.
Proof.
  intros name data w Hdir Hwrite.
  destruct (@saveJSONToFile_ok name data w Hdir Hwrite)
    as [w' [Hrun [Hfiles [Hex [Hkeep [_ [_ [_ [Hlog _]]]]]]]]].
  exists w'. split; [exact Hrun|]. rewrite Hfiles.
  split; [apply lookup_file_head|].
  split; [intros other Hne; now apply lookup_file_other|].
  repeat split; assumption.
Qed.

Lemma X8_witness :
  exists w',
    saveJSONToFile "Rock / Metal" [song "a"] provider_world = Returns tt w'
    /\ lookup_file "backups/Rock-Metal.json" (files w') = Some (ItemsJSON [song "a"])
    /\ (forall other, other <> "backups/Rock-Metal.json" ->
                      lookup_file other (files w')
                      = lookup_file other (files provider_world))
    /\ existsb (String.eqb "backups") (dirs w') = true
    /\ (existsb (String.eqb "backups") (dirs provider_world) = true ->
        dirs w' = dirs provider_world)
    /\ logged w' = logged provider_world.
Proof.
  apply (@X8_saveJSONToFile_writes_the_file "Rock / Metal" [song "a"] provider_world).
  - right. reflexivity.
  - reflexivity.
Defined.

(** X9.  Two names with the same safe file name share one file: saving
    under the second replaces, without a word, what was saved under the
    first. *)
Theorem X9_colliding_names_overwrite :
  forall (name1 name2 : string) (data1 data2 : list Item) (w : World),
    safeFilename name1 = safeFilename name2 ->
    folder_ready w ->
    write_error w (backup_filename name1) = None ->
    exists w',
      bind (saveJSONToFile name1 data1) (fun _ => saveJSONToFile name2 data2) w
        = Returns tt w'
      /\ lookup_file (backup_filename name1) (files w') = Some (ItemsJSON data2)
      /\ logged w' = logged w.
Proof.
  intros name1 name2 data1 data2 w Hsame Hdir Hwrite.
  assert (Hname : backup_filename name2 = backup_filename name1).
  { unfold backup_filename. now rewrite Hsame. }
  destruct (@saveJSONToFile_ok name1 data1 w Hdir Hwrite)
    as [w1 [Hrun1 [_ [Hex1 [_ [Hwe1 [_ [_ [Hlog1 _]]]]]]]]].
  destruct (@saveJSONToFile_ok name2 data2 w1)
    as [w2 [Hrun2 [Hfiles2 [_ [_ [_ [_ [_ [Hlog2 _]]]]]]]]].
  - left. exact Hex1.
  - rewrite Hwe1, Hname. exact Hwrite.
  - exists w2. unfold bind. rewrite Hrun1, Hrun2.
    split; [reflexivity|]. split.
    + rewrite Hfiles2, Hname. apply lookup_file_head.
    + congruence.
Qed.

Lemma X9_witness :
  "Rock / Metal" <> "Rock-Metal"
  /\ exists w',
      bind (saveJSONToFile "Rock / Metal" [song "a"])
           (fun _ => saveJSONToFile "Rock-Metal" [song "b"]) provider_world
        = Returns tt w'
      /\ lookup_file (backup_filename "Rock / Metal") (files w')
         = Some (ItemsJSON [song "b"])
      /\ logged w' = logged provider_world.
Proof.
  split; [discriminate|].
  apply (@X9_colliding_names_overwrite "Rock / Metal" "Rock-Metal"
           [song "a"] [song "b"] provider_world).
  - reflexivity.
  - right. reflexivity.
  - reflexivity.
Defined.

(** X10.  File-system errors end the process in [saveJSONToFile].  When
    the folder is missing and cannot be made, the error is logged and no
    write is tried.  When the write fails, the error is logged and no
    file other than the one being written is touched; that file is as it
    was if it could not be opened, holds a broken document if the write
    broke off, and holds the data if only the close failed. *)
Theorem X10_saveJSONToFile_fails_fatally :
  forall (name : string) (data : list Item) (w : World),
    (forall err : error,
        existsb (String.eqb "backups") (dirs w) = false ->
        mkdir_error w "backups" = Some err ->
        saveJSONToFile name data w
        = Stops Fatal (with_log ("Error creating backups folder: " ++ Error err) w))
    /\
    (forall failure : WriteFailure,
        folder_ready w ->
        write_error w (backup_filename name) = Some failure ->
        exists w',
          saveJSONToFile name data w = Stops Fatal w'
          /\ logged w'
             = logged w ++ [("Error writing JSON data to file: "
                             ++ Error (failure_error failure))%string]
          /\ (forall other, other <> backup_filename name ->
                            lookup_file other (files w') = lookup_file other (files w))
          /\ lookup_file (backup_filename name) (files w')
             = match failure with
               | OpenFailed _ => lookup_file (backup_filename name) (files w)
               | WriteFailed _ => Some Corrupt
               | CloseFailed _ => Some (ItemsJSON data)
               end).
Proof.
  intros name data w. split.
  - intros err Hex Hmk.
    unfold saveJSONToFile, bind at 1, os_Stat_IsNotExist. rewrite Hex. cbn [negb].
    unfold bind at 1, bind at 1, os_Mkdir. rewrite Hmk. reflexivity.
  - intros failure Hdir Hwrite.
    unfold saveJSONToFile, bind at 1, os_Stat_IsNotExist.
    destruct (existsb (String.eqb "backups") (dirs w)) eqn:Hex; cbn [negb].
    + unfold bind at 1, ret, bind at 1, ioutil_WriteFile. rewrite Hwrite.
      destruct failure as [e|e|e]; (eexists; split; [reflexivity|]);
        cbn [logged files with_log with_file failure_error];
        (split; [reflexivity|]); split;
        try (intros other Hne; now apply lookup_file_other);
        try apply lookup_file_head; reflexivity.
    + destruct Hdir as [Hdir|Hmk]; [congruence|].
      unfold bind at 1, bind at 1, os_Mkdir. rewrite Hmk.
      unfold ret, bind at 1, ioutil_WriteFile. cbn [write_error with_dir].
      rewrite Hwrite.
      destruct failure as [e|e|e]; (eexists; split; [reflexivity|]);
        cbn [logged files with_log with_file with_dir failure_error];
        (split; [reflexivity|]); split;
        try (intros other Hne; now apply lookup_file_other);
        try apply lookup_file_head; reflexivity.
Qed.

Lemma X10_witness :
  saveJSONToFile "Jazz" [song "a"] locked_world
  = Stops Fatal (with_log "Error creating backups folder: permission denied" locked_world)
  /\ exists w',
      saveJSONToFile "Jazz" [song "a"] full_disk_world = Stops Fatal w'
      /\ logged w' = ["Error writing JSON data to file: no space left on device"]
      /\ (forall other, other <> "backups/Jazz.json" ->
                        lookup_file other (files w')
                        = lookup_file other (files full_disk_world))
      /\ lookup_file "backups/Jazz.json" (files w') = Some Corrupt.
Proof.
  split.
  - apply (proj1 (X10_saveJSONToFile_fails_fatally "Jazz" [song "a"] locked_world)
                 (New "permission denied"));
      reflexivity.
  - apply (proj2 (X10_saveJSONToFile_fails_fatally "Jazz" [song "a"] full_disk_world)
                 (WriteFailed (New "no space left on device"))).
    + right. reflexivity.
    + reflexivity.
Defined.

(* ===================================================================== *)
(** ** The ways the authorization flow ends *)
(* ===================================================================== *)

(** Every end of the flow, by cases on the callback, the state, the
    exchange and the write of the cache. *)
Lemma oauthFlow_outcomes conf w h w' :
  oauthFlow conf w = Stops h w' ->
  requests w' = requests w /\ dirs w' = dirs w /\ slept w' = slept w
  /\ ((h = Fatal /\ files w' = files w)
      \/ (h = Fatal
          /\ exists failure left,
              write_error w "token_cache.json" = Some failure
              /\ files w' = ("token_cache.json", left) :: files w)
      \/ (h = Exit0
          /\ exists query token,
              inbound w = CallbackRequest query
              /\ query_Get query "state" = "random-string-for-state-check"
              /\ exchange w (query_Get query "code") = Ok token
              /\ write_error w "token_cache.json" = None
              /\ exchanged w' = exchanged w ++ [query_Get query "code"]
              /\ files w' = ("token_cache.json", TokenJSON token) :: files w)).
Proof.
  unfold oauthFlow, bind at 1. cbv zeta.
  cbn [inbound with_output].
  destruct (inbound w) as [query|err] eqn:Hin.
  - unfold callback, saveToken, conf_Exchange, ioutil_WriteFile, os_Exit0,
      log_Fatal, stop, ret, bind.
    destruct (String.eqb_spec "random-string-for-state-check" (query_Get query "state"))
      as [Hstate|_]; flow_step;
      [|intros H; injection H as <- <-; repeat split; left; split; reflexivity].
    destruct (exchange w (query_Get query "code")) as [token|err] eqn:Hex;
      flow_step;
      [|intros H; injection H as <- <-; repeat split; left; split; reflexivity].
    destruct (write_error w "token_cache.json") as [[e|e|e]|] eqn:Hwrite; flow_step;
      intros H; injection H as <- <-; repeat split.
    + left. split; reflexivity.
    + right. left. split; [reflexivity|]. eexists. eexists. split; reflexivity.
    + right. left. split; [reflexivity|]. eexists. eexists. split; reflexivity.
    + right. right. split; [reflexivity|]. exists query, token.
      repeat split; [now symmetry | exact Hex].
  - unfold log_Fatal. intros H. injection H as <- <-. repeat split.
    left. split; reflexivity.
Qed.

(** X12.  The flow ends with exit status 0 only when the callback
    carried the issued state, the provider gave a token for the
    callback's code and that token went into the cache whole.  When it
    ends fatally, either no file has changed or it was the write of the
    token cache that failed, and then no other file has changed.  No end
    of the flow asks the music service anything. *)
Theorem X12_flow_ends_by_exit_only_with_the_token_saved :
  forall (conf : Config) (w w' : World) (h : Halt),
    oauthFlow conf w = Stops h w' ->
    requests w' = requests w
    /\ ((h = Fatal /\ files w' = files w)
        \/ (h = Fatal
            /\ (exists failure, write_error w "token_cache.json" = Some failure)
            /\ forall name, name <> "token_cache.json" ->
                            lookup_file name (files w') = lookup_file name (files w))
        \/ (h = Exit0
            /\ exists query token,
                inbound w = CallbackRequest query
                /\ query_Get query "state" = "random-string-for-state-check"
                /\ exchange w (query_Get query "code") = Ok token
                /\ exchanged w' = exchanged w ++ [query_Get query "code"]
                /\ lookup_file "token_cache.json" (files w') = Some (TokenJSON token))).
Proof.
  intros conf w w' h Hrun.
  destruct (oauthFlow_outcomes conf w Hrun) as [Hreq [_ [_ Hcases]]].
  split; [exact Hreq|].
  destruct Hcases as [Hsame|[[Hh [failure [left [Hwrite Hfiles]]]]|[Hh Hok]]].
  - left. exact Hsame.
  - right. left. split; [exact Hh|]. split; [exists failure; exact Hwrite|].
    intros name Hname. rewrite Hfiles. now apply lookup_file_other.
  - right. right. split; [exact Hh|].
    destruct Hok as [query [token [Hin [Hstate [Hex [_ [Hexd Hfiles]]]]]]].
    exists query, token. repeat split; trivial.
    rewrite Hfiles. apply lookup_file_head.
Qed.

Lemma X12_witness :
  exists h w',
    oauthFlow (main_conf (fun _ => "client-id")) honest_run = Stops h w'
    /\ requests w' = requests honest_run
    /\ ((h = Fatal /\ files w' = files honest_run)
        \/ (h = Fatal
            /\ (exists failure, write_error honest_run "token_cache.json" = Some failure)
            /\ forall name, name <> "token_cache.json" ->
                            lookup_file name (files w')
                            = lookup_file name (files honest_run))
        \/ (h = Exit0
            /\ exists query token,
                inbound honest_run = CallbackRequest query
                /\ query_Get query "state" = "random-string-for-state-check"
                /\ exchange honest_run (query_Get query "code") = Ok token
                /\ exchanged w' = exchanged honest_run ++ [query_Get query "code"]
                /\ lookup_file "token_cache.json" (files w') = Some (TokenJSON token))).
Proof.
  eexists. eexists. split; [reflexivity|].
  apply (@X12_flow_ends_by_exit_only_with_the_token_saved
           (main_conf (fun _ => "client-id")) honest_run).
  reflexivity.
Defined.

(** X13.  When the callback carries the issued state, the provider
    exchanges its code for a token and the cache can be written, the flow
    ends with exit status 0 after exactly one exchange, and the next run
    finds that token in the cache. *)
Theorem X13_authorization_persists_the_token :
  forall (conf : Config) (w : World) (query : list (string * string)) (token : Token),
    inbound w = CallbackRequest query ->
    query_Get query "state" = "random-string-for-state-check" ->
    exchange w (query_Get query "code") = Ok token ->
    write_error w "token_cache.json" = None ->
    exists w',
      oauthFlow conf w = Stops Exit0 w'
      /\ exchanged w' = exchanged w ++ [query_Get query "code"]
      /\ loadToken w' = Returns (Ok token) w'.
Proof.
  intros conf w query token Hin Hstate Hex Hwrite.
  unfold oauthFlow, bind at 1. cbv zeta. cbn [inbound with_output]. rewrite Hin.
  unfold callback, saveToken, conf_Exchange, ioutil_WriteFile, os_Exit0,
    log_Fatal, stop, ret, bind.
  rewrite Hstate. rewrite String.eqb_refl. flow_step.
  rewrite Hex. flow_step. rewrite Hwrite. flow_step.
  eexists. split; [reflexivity|]. split; [reflexivity|].
  unfold loadToken, bind, ioutil_ReadFile. cbn [files with_output with_file].
  rewrite lookup_file_head. reflexivity.
Qed.

Lemma X13_witness :
  exists w',
    oauthFlow (main_conf (fun _ => "client-id")) honest_run = Stops Exit0 w'
    /\ exchanged w' = ["good-code"]
    /\ loadToken w'
       = Returns (Ok {| AccessToken := "access"; TokenType := "Bearer";
                        RefreshToken := "refresh"; Expiry := "later" |}) w'.
Proof.
  apply (@X13_authorization_persists_the_token
           (main_conf (fun _ => "client-id")) honest_run
           [("code", "good-code"); ("state", "random-string-for-state-check")]);
    reflexivity.
Defined.

(** X14.  A run that finds no usable token never gets to the backup:
    [main] ends inside the authorization flow, by a fatal error or by
    exit status 0 once the token is saved.  It has asked the music
    service nothing, made no folder, and written no file but, at most,
    the token cache; the backup needs a second run. *)
Theorem X14_first_run_only_authorizes :
  forall (fuel : nat) (w : World) (env : string -> string) (err : error),
    dotenv w = Ok env ->
    returned (loadToken w) = Some (Err err) ->
    exists h w',
      main fuel w = Stops h w'
      /\ (h = Fatal \/ h = Exit0)
      /\ auth_only w w'.
Proof.
  intros fuel w env err Henv Hload.
  destruct (@main_without_token fuel w env err Henv Hload) as [h [w' [Hmain Hflow]]].
  exists h, w'. split; [exact Hmain|].
  destruct (oauthFlow_outcomes _ _ Hflow) as [Hreq [Hdirs [Hslept Hcases]]].
  split.
  - destruct Hcases as [[-> _]|[[-> _]|[-> _]]]; [left | left | right]; reflexivity.
  - unfold auth_only. repeat split; try assumption.
    intros name Hname.
    destruct Hcases
      as [[_ ->]|[[_ [failure [left [_ ->]]]]|[_ [query [token [_ [_ [_ [_ [_ ->]]]]]]]]]];
      [reflexivity | now apply lookup_file_other | now apply lookup_file_other].
Qed.

Lemma X14_witness :
  exists h w',
    main 5 honest_run = Stops h w'
    /\ (h = Fatal \/ h = Exit0)
    /\ auth_only honest_run w'.
Proof.
  apply (@X14_first_run_only_authorizes 5 honest_run
           (fun key => if String.eqb key "SPOTIFY_CLIENT_ID" then "client-id"
                       else if String.eqb key "SPOTIFY_CLIENT_SECRET" then "secret"
                       else "")
           (Wrap (New "open token_cache.json: no such file or directory")
                 "failed to read token cache file"));
    reflexivity.
Defined.

Lemma query_Get_missing query key :
  (forall v, ~ In (key, v) query) -> query_Get query key = "".
Proof.
  induction query as [|[k v] rest IH]; intros Hno; cbn [query_Get]; [reflexivity|].
  destruct (String.eqb_spec k key) as [->|_].
  - exfalso. apply (Hno v). left. reflexivity.
  - apply IH. intros v' Hin. apply (Hno v'). right. exact Hin.
Qed.

(** X15.  A callback without any [state] parameter is read as carrying
    the empty state and is turned down like a forged one: the flow ends
    fatally, no code is exchanged and no file is written. *)
Theorem X15_callback_without_state_is_refused :
  forall (conf : Config) (w : World) (query : list (string * string)),
    inbound w = CallbackRequest query ->
    (forall v, ~ In ("state", v) query) ->
    oauthFlow conf w
    = Stops Fatal
        (with_log "Invalid state received: "
           (with_output (AuthPrompt (AuthCodeURL conf "random-string-for-state-check")) w)).
Proof.
  intros conf w query Hin Hno.
  unfold oauthFlow, bind at 1. cbv zeta. cbn [inbound with_output]. rewrite Hin.
  unfold callback, bind at 1. rewrite (query_Get_missing _ _ Hno).
  reflexivity.
Qed.

Lemma X15_witness :
  oauthFlow (main_conf (fun _ => "client-id")) stateless_run
  = Stops Fatal
      (with_log "Invalid state received: "
         (with_output
            (AuthPrompt (AuthCodeURL (main_conf (fun _ => "client-id"))
                                     "random-string-for-state-check"))
            stateless_run)).
Proof.
  apply (@X15_callback_without_state_is_refused
           (main_conf (fun _ => "client-id")) stateless_run [("code", "good-code")]).
  - reflexivity.
  - intros v [E|[]]. discriminate E.
Defined.

(* ===================================================================== *)
(** ** What a backup run leaves alone *)
(* ===================================================================== *)

Lemma backup_only_refl w : backup_only w w.
Proof.
  unfold backup_only. repeat split. exists []. now rewrite app_nil_r.
Qed.

Lemma backup_only_trans w1 w2 w3 :
  backup_only w1 w2 -> backup_only w2 w3 -> backup_only w1 w3.
Proof.
  intros [Hf1 [[m1 Hr1] Hp1]] [Hf2 [[m2 Hr2] Hp2]].
  unfold backup_only. repeat split; try congruence.
  exists (m1 ++ m2). now rewrite Hr2, Hr1, app_assoc.
Qed.

Lemma backup_only_request url w : backup_only w (with_request url w).
Proof. unfold backup_only. repeat split. exists [url]. reflexivity. Qed.

Lemma backup_only_text line w : backup_only w (with_output (Text line) w).
Proof.
  unfold backup_only. repeat split.
  - exists []. cbn [requests with_output]. now rewrite app_nil_r.
  - cbn [stdout with_output]. now rewrite rev_unit.
Qed.

Lemma backup_only_log line w : backup_only w (with_log line w).
Proof.
  unfold backup_only. repeat split. exists []. cbn [requests with_log].
  now rewrite app_nil_r.
Qed.

Lemma backup_only_sleep seconds w : backup_only w (with_sleep seconds w).
Proof.
  unfold backup_only. repeat split. exists []. cbn [requests with_sleep].
  now rewrite app_nil_r.
Qed.

Lemma backup_only_dir name w : backup_only w (with_dir name w).
Proof.
  unfold backup_only. repeat split. exists []. cbn [requests with_dir].
  now rewrite app_nil_r.
Qed.

(** A backup file is never the token cache. *)
Lemma backup_only_file name data w :
  backup_only w (with_file (backup_filename name) data w).
Proof.
  unfold backup_only. repeat split. exists []. cbn [requests with_file].
  now rewrite app_nil_r.
Qed.

Lemma preserves_saveJSONToFile name data :
  preserves backup_only (saveJSONToFile name data).
Proof.
  intros w w'.
  unfold saveJSONToFile, os_Stat_IsNotExist, os_Mkdir, ioutil_WriteFile,
    log_Fatal, ret, bind.
  destruct (existsb (String.eqb "backups") (dirs w)); cbn [negb].
  - destruct (write_error w (backup_filename name)) as [[e|e|e]|];
      intros H; injection H as <-.
    + apply backup_only_log.
    + eapply backup_only_trans; [apply backup_only_file | apply backup_only_log].
    + eapply backup_only_trans; [apply backup_only_file | apply backup_only_log].
    + apply backup_only_file.
  - destruct (mkdir_error w "backups").
    + intros H. injection H as <-. apply backup_only_log.
    + cbn [write_error with_dir].
      destruct (write_error w (backup_filename name)) as [[e|e|e]|];
        intros H; injection H as <-;
        (eapply backup_only_trans; [apply backup_only_dir|]).
      * apply backup_only_log.
      * eapply backup_only_trans; [apply backup_only_file | apply backup_only_log].
      * eapply backup_only_trans; [apply backup_only_file | apply backup_only_log].
      * apply backup_only_file.
Qed.

Lemma preserves_main_range fuel playlists :
  preserves backup_only (main_range fuel playlists).
Proof.
  induction playlists as [|p rest IH]; cbn [main_range].
  - apply (@preserves_ret backup_only backup_only_refl).
  - apply (@preserves_bind backup_only backup_only_trans).
    + apply (@preserves_fetchPlaylistTracks_loop backup_only
               backup_only_refl backup_only_trans backup_only_request backup_only_text).
    + intros [tracks|err].
      * apply (@preserves_bind backup_only backup_only_trans);
          [apply preserves_saveJSONToFile | intros _].
        apply (@preserves_bind backup_only backup_only_trans); [|intros _; exact IH].
        intros w w' H. injection H as <-. apply backup_only_sleep.
      * apply (@preserves_bind backup_only backup_only_trans); [|intros _; exact IH].
        intros w w' H. injection H as <-. apply backup_only_log.
Qed.

Lemma preserves_main_backup fuel : preserves backup_only (main_backup fuel).
Proof.
  unfold main_backup.
  apply (@preserves_bind backup_only backup_only_trans).
  - apply (@preserves_fetchPlaylists_loop backup_only
             backup_only_refl backup_only_trans backup_only_request backup_only_text).
  - intros [playlists|err].
    + apply (@preserves_bind backup_only backup_only_trans);
        [apply preserves_main_range | intros _].
      apply (@preserves_bind backup_only backup_only_trans).
      * apply (@preserves_fetchSavedTracks_loop backup_only
                 backup_only_refl backup_only_trans backup_only_request backup_only_text).
      * intros [savedTracks|err]; [apply preserves_saveJSONToFile|].
        intros w w' H. injection H as <-. apply backup_only_log.
    + intros w w' H. injection H as <-. apply backup_only_log.
Qed.

(** X16.  A run that starts with a cached token, however it ends, has
    printed no authorization prompt and has not written the token cache,
    which holds the token it held; the requests made before are still
    the beginning of the request log. *)
Theorem X16_backup_run_keeps_the_token_cache :
  forall (fuel : nat) (w w' : World) (env : string -> string) (token : Token),
    dotenv w = Ok env ->
    lookup_file "token_cache.json" (files w) = Some (TokenJSON token) ->
    final_world (main fuel w) = Some w' ->
    backup_only w w'
    /\ lookup_file "token_cache.json" (files w') = Some (TokenJSON token).
Proof.
  intros fuel w w' env token Henv Hfile Hrun.
  rewrite (@main_with_cached_token fuel w env token Henv Hfile) in Hrun.
  pose proof (@preserves_main_backup fuel w w' Hrun) as Hb.
  split; [exact Hb|].
  destruct Hb as [Hf _]. now rewrite Hf.
Qed.

Lemma X16_witness :
  exists w',
    final_world (main 2 provider_world) = Some w'
    /\ backup_only provider_world w'
    /\ lookup_file "token_cache.json" (files w') = Some (TokenJSON cached_token).
Proof.
  eexists. split; [vm_compute; reflexivity|].
  apply (@X16_backup_run_keeps_the_token_cache 2 provider_world _
           (fun key => if String.eqb key "SPOTIFY_CLIENT_ID" then "client-id"
                       else if String.eqb key "SPOTIFY_CLIENT_SECRET" then "secret"
                       else "")
           cached_token).
  - reflexivity.
  - reflexivity.
  - vm_compute. reflexivity.
Defined.




(* ===================================================================== *)
(** ** Reading a result backwards *)
(* ===================================================================== *)

Lemma fetchPlaylists_loop_sound :
  forall fuel playlists url w items w',
    fetchPlaylists_loop fuel playlists url w = Returns (Ok items) w' ->
    exists pages,
      serves json_Unmarshal_PlaylistPage PlaylistPage_Next
             (transport w) (requests w) url pages
      /\ chained PlaylistPage_Next url pages
      /\ items = playlists ++ all_playlists pages
      /\ requests w' = requests w ++ walk_urls PlaylistPage_Next url pages.
Proof.
  induction fuel as [|fuel IH]; intros playlists url w items w';
    cbn [fetchPlaylists_loop];
    (destruct (String.eqb_spec url "") as [->|Hurl];
     [ unfold ret; intros H; injection H as <- <-; exists [];
       unfold all_playlists; cbn; rewrite !app_nil_r; repeat split
     | ]).
  - discriminate.
  - unfold bind at 1, client_Get at 1.
    destruct (transport w (requests w) url) as [[[d|err]]|err|resp err] eqn:Hreply;
      cbn [ioutil_ReadAll Body Body_Close]; unfold bind, ret, stop; try discriminate.
    unfold fmt_Printf, json_Unmarshal_PlaylistPage.
    destruct (as_PlaylistPage d) as [page derr] eqn:Hdec.
    intros Hrun. apply IH in Hrun.
    destruct Hrun as [pages [Hs [Hc [Hitems Hreq]]]].
    cbn [transport requests with_output with_request] in Hs, Hreq.
    exists (page :: pages). cbn [serves chained walk_urls].
    split; [split; [|exact Hs]|split; [split; assumption|split]].
    + exists d. split; [exact Hreply|].
      unfold json_Unmarshal_PlaylistPage. now rewrite Hdec.
    + rewrite Hitems. unfold all_playlists. cbn. now rewrite <- app_assoc.
    + rewrite Hreq. cbn. now rewrite <- app_assoc.
Qed.

Lemma fetchPlaylistTracks_loop_sound :
  forall fuel playlist tracks url w items w',
    fetchPlaylistTracks_loop fuel playlist tracks url w = Returns (Ok items) w' ->
    exists pages,
      serves json_Unmarshal_TracksPage TracksPage_Next
             (transport w) (requests w) url pages
      /\ chained TracksPage_Next url pages
      /\ items = tracks ++ all_tracks pages
      /\ requests w' = requests w ++ walk_urls TracksPage_Next url pages.
Proof.
  induction fuel as [|fuel IH]; intros playlist tracks url w items w';
    cbn [fetchPlaylistTracks_loop];
    (destruct (String.eqb_spec url "") as [->|Hurl];
     [ unfold ret; intros H; injection H as <- <-; exists [];
       unfold all_tracks; cbn; rewrite !app_nil_r; repeat split
     | ]).
  - discriminate.
  - unfold bind at 1, client_Get at 1.
    destruct (transport w (requests w) url) as [[[d|err]]|err|resp err] eqn:Hreply;
      cbn [ioutil_ReadAll Body Body_Close]; unfold bind, ret, stop; try discriminate.
    unfold fmt_Printf, json_Unmarshal_TracksPage.
    destruct (as_TracksPage d) as [page derr] eqn:Hdec.
    intros Hrun. apply IH in Hrun.
    destruct Hrun as [pages [Hs [Hc [Hitems Hreq]]]].
    cbn [transport requests with_output with_request] in Hs, Hreq.
    exists (page :: pages). cbn [serves chained walk_urls].
    split; [split; [|exact Hs]|split; [split; assumption|split]].
    + exists d. split; [exact Hreply|].
      unfold json_Unmarshal_TracksPage. now rewrite Hdec.
    + rewrite Hitems. unfold all_tracks. cbn. now rewrite <- app_assoc.
    + rewrite Hreq. cbn. now rewrite <- app_assoc.
Qed.

Lemma fetchSavedTracks_loop_sound :
  forall fuel tracks url w items w',
    fetchSavedTracks_loop fuel tracks url w = Returns (Ok items) w' ->
    exists full short,
      serves json_Unmarshal_TracksPage TracksPage_Next
             (transport w) (requests w) url (full ++ [short])
      /\ Forall (fun p => short_page p = false) full
      /\ short_page short = true
      /\ items = tracks ++ all_tracks (full ++ [short])
      /\ requests w' = requests w ++ walk_urls TracksPage_Next url (full ++ [short]).
Proof.
  induction fuel as [|fuel IH]; intros tracks url w items w';
    cbn [fetchSavedTracks_loop]; [discriminate|].
  unfold bind at 1, client_Get at 1.
  destruct (transport w (requests w) url) as [[[d|err]]|err|resp err] eqn:Hreply;
    cbn [ioutil_ReadAll Body Body_Close]; unfold bind, ret, stop; try discriminate.
  unfold fmt_Printf, json_Unmarshal_TracksPage.
  destruct (as_TracksPage d) as [page derr] eqn:Hdec.
  destruct (Nat.ltb (List.length (TracksPage_Items page)) savedTracks_limit) eqn:Hshort.
  - intros H. injection H as <- <-. exists [], page.
    cbn [app serves walk_urls]. unfold all_tracks. cbn. rewrite app_nil_r.
    repeat split; trivial.
    exists d. split; [exact Hreply|].
      unfold json_Unmarshal_TracksPage. now rewrite Hdec.
  - cbn [Body_Close]. unfold ret. intros Hrun. apply IH in Hrun.
    destruct Hrun as [full [short [Hs [Hfull [Hsh [Hitems Hreq]]]]]].
    cbn [transport requests with_output with_request] in Hs, Hreq.
    exists (page :: full), short. cbn [app serves walk_urls].
    split; [split; [|exact Hs]|split; [|split; [exact Hsh|split]]].
    + exists d. split; [exact Hreply|].
      unfold json_Unmarshal_TracksPage. now rewrite Hdec.
    + constructor; [exact Hshort | exact Hfull].
    + rewrite Hitems. unfold all_tracks. cbn. now rewrite <- app_assoc.
    + rewrite Hreq. cbn. now rewrite <- app_assoc.
Qed.

Lemma serves_always_json (P : Type) (decode : Data -> P * option error)
    (next : P -> string) t pages :
  always_json decode t ->
  forall hist url,
    serves decode next t hist url pages -> serves_json decode next t hist url pages.
Proof.
  intros Hclean. induction pages as [|p rest IH]; intros hist url; cbn [serves serves_json].
  - trivial.
  - intros [[d [Hreply Hd]] Hrest]. split; [|apply IH; exact Hrest].
    exists d. split; [exact Hreply|].
    pose proof (Hclean hist url d Hreply) as Herr.
    destruct (decode d) as [page derr]. cbn in Hd, Herr. now subst.
Qed.

(** X18.  The items a fetcher returns are, page by page and in order,
    what [json.Unmarshal] left in the page for each body the service
    served to exactly the requests made, the start URL first and then
    each cursor; a body that fails to decode counts with the page the
    decoder left, decode error or not.  For playlists and playlist
    tracks the sequence ends at the first empty cursor, for saved tracks
    at the first page of fewer than 50 items.  When every body the
    service serves decodes without an error, the pages are those the
    bodies encode. *)
Theorem X18_returned_items_are_the_pages_served :
  forall (fuel : nat) (w w' : World),
    (forall items : list Playlist,
        fetchPlaylists fuel w = Returns (Ok items) w' ->
        exists pages,
          serves json_Unmarshal_PlaylistPage PlaylistPage_Next
                 (transport w) (requests w) fetchPlaylists_url pages
          /\ (always_json json_Unmarshal_PlaylistPage (transport w) ->
              serves_json json_Unmarshal_PlaylistPage PlaylistPage_Next
                          (transport w) (requests w) fetchPlaylists_url pages)
          /\ chained PlaylistPage_Next fetchPlaylists_url pages
          /\ items = all_playlists pages
          /\ requests w'
             = requests w ++ walk_urls PlaylistPage_Next fetchPlaylists_url pages)
    /\
    (forall (playlist : Playlist) (items : list Item),
        fetchPlaylistTracks fuel playlist w = Returns (Ok items) w' ->
        exists pages,
          serves json_Unmarshal_TracksPage TracksPage_Next
                 (transport w) (requests w) (fetchPlaylistTracks_url playlist) pages
          /\ (always_json json_Unmarshal_TracksPage (transport w) ->
              serves_json json_Unmarshal_TracksPage TracksPage_Next
                          (transport w) (requests w)
                          (fetchPlaylistTracks_url playlist) pages)
          /\ chained TracksPage_Next (fetchPlaylistTracks_url playlist) pages
          /\ items = all_tracks pages
          /\ requests w'
             = requests w
                 ++ walk_urls TracksPage_Next (fetchPlaylistTracks_url playlist) pages)
    /\
    (forall items : list Item,
        fetchSavedTracks fuel w = Returns (Ok items) w' ->
        exists full short,
          serves json_Unmarshal_TracksPage TracksPage_Next
                 (transport w) (requests w) fetchSavedTracks_url (full ++ [short])
          /\ (always_json json_Unmarshal_TracksPage (transport w) ->
              serves_json json_Unmarshal_TracksPage TracksPage_Next
                          (transport w) (requests w) fetchSavedTracks_url
                          (full ++ [short]))
          /\ Forall (fun p => 50 <= List.length (TracksPage_Items p)) full
          /\ List.length (TracksPage_Items short) < 50
          /\ items = all_tracks (full ++ [short])
          /\ requests w'
             = requests w
                 ++ walk_urls TracksPage_Next fetchSavedTracks_url (full ++ [short])).
Proof.
  intros fuel w w'. split; [|split].
  - intros items Hrun.
    destruct (fetchPlaylists_loop_sound _ _ _ _ Hrun) as [pages [Hs [Hc [Hi Hr]]]].
    exists pages. repeat split; trivial.
    intros Hclean. now apply serves_always_json.
  - intros playlist items Hrun.
    destruct (fetchPlaylistTracks_loop_sound _ _ _ _ _ Hrun)
      as [pages [Hs [Hc [Hi Hr]]]].
    exists pages. repeat split; trivial.
    intros Hclean. now apply serves_always_json.
  - intros items Hrun.
    destruct (fetchSavedTracks_loop_sound _ _ _ _ Hrun)
      as [full [short [Hs [Hfull [Hshort [Hitems Hreq]]]]]].
    exists full, short. repeat split; trivial.
    + intros Hclean. now apply serves_always_json.
    + eapply Forall_impl; [|exact Hfull]. intros p Hp.
      unfold short_page, savedTracks_limit in Hp. now apply Nat.ltb_ge in Hp.
    + unfold short_page, savedTracks_limit in Hshort. now apply Nat.ltb_lt in Hshort.
Qed.

(** On the provider whose second body is not JSON the pages found are
    the first page and the zero page the decoder left. *)
Lemma X18_witness :
  (exists pages,
      serves json_Unmarshal_PlaylistPage PlaylistPage_Next
             provider [] fetchPlaylists_url pages
      /\ (always_json json_Unmarshal_PlaylistPage provider ->
          serves_json json_Unmarshal_PlaylistPage PlaylistPage_Next
                      provider [] fetchPlaylists_url pages)
      /\ chained PlaylistPage_Next fetchPlaylists_url pages
      /\ [rock; jazz; folk] = all_playlists pages
      /\ [fetchPlaylists_url; playlists_page2_url]
         = [] ++ walk_urls PlaylistPage_Next fetchPlaylists_url pages)
  /\ (exists pages,
         serves json_Unmarshal_PlaylistPage PlaylistPage_Next
                garbling_provider [] fetchPlaylists_url pages
         /\ (always_json json_Unmarshal_PlaylistPage garbling_provider ->
             serves_json json_Unmarshal_PlaylistPage PlaylistPage_Next
                         garbling_provider [] fetchPlaylists_url pages)
         /\ chained PlaylistPage_Next fetchPlaylists_url pages
         /\ [rock; jazz] = all_playlists pages
         /\ [fetchPlaylists_url; playlists_page2_url]
            = [] ++ walk_urls PlaylistPage_Next fetchPlaylists_url pages)
  /\ (exists full short,
         serves json_Unmarshal_TracksPage TracksPage_Next
                provider [] fetchSavedTracks_url (full ++ [short])
         /\ (always_json json_Unmarshal_TracksPage provider ->
             serves_json json_Unmarshal_TracksPage TracksPage_Next
                         provider [] fetchSavedTracks_url (full ++ [short]))
         /\ Forall (fun p => 50 <= List.length (TracksPage_Items p)) full
         /\ List.length (TracksPage_Items short) < 50
         /\ fifty_songs ++ [song "y"; song "z"] = all_tracks (full ++ [short])
         /\ [fetchSavedTracks_url; saved_page2_url]
            = [] ++ walk_urls TracksPage_Next fetchSavedTracks_url (full ++ [short])).
Proof.
  split; [|split].
  - apply (proj1 (X18_returned_items_are_the_pages_served 2 provider_world
                    (with_output (Text "Fetched 3 playlists\n")
                       (with_request playlists_page2_url
                          (with_output (Text "Fetched 2 playlists\n")
                             (with_request fetchPlaylists_url provider_world)))))
                 [rock; jazz; folk]).
    reflexivity.
  - apply (proj1 (X18_returned_items_are_the_pages_served 2 garbling_world
                    (with_output (Text "Fetched 2 playlists\n")
                       (with_request playlists_page2_url
                          (with_output (Text "Fetched 2 playlists\n")
                             (with_request fetchPlaylists_url garbling_world)))))
                 [rock; jazz]).
    reflexivity.
  - apply (proj2 (proj2 (X18_returned_items_are_the_pages_served 2 provider_world
                    (with_request saved_page2_url
                       (with_output (Text "Fetched 50 saved tracks\n")
                          (with_request fetchSavedTracks_url provider_world)))))
                 (fifty_songs ++ [song "y"; song "z"])).
    reflexivity.
Defined.

Lemma fetchPlaylists_loop_error :
  forall fuel playlists url w e w',
    fetchPlaylists_loop fuel playlists url w = Returns (Err e) w' ->
    exists cause hist u,
      (e = Wrap cause "failed to fetch playlists"
       /\ exists resp, transport w hist u = RedirectFailed resp cause)
      \/ (e = Wrap cause "failed to read playlists response"
          /\ transport w hist u = Served {| Body := Err cause |}).
Proof.
  induction fuel as [|fuel IH]; intros playlists url w e w';
    cbn [fetchPlaylists_loop]; destruct (String.eqb url "");
    unfold ret, out_of_fuel; try discriminate.
  unfold bind at 1, client_Get at 1.
  destruct (transport w (requests w) url) as [[[d|err]]|err|resp err] eqn:Hreply;
    cbn [ioutil_ReadAll Body Body_Close]; unfold bind, ret, stop; try discriminate.
  - unfold fmt_Printf, json_Unmarshal_PlaylistPage.
    destruct (as_PlaylistPage d) as [page derr].
    intros Hrun. apply IH in Hrun. exact Hrun.
  - intros H. injection H as <- _. exists err, (requests w), url. right.
    split; [reflexivity | exact Hreply].
  - intros H. injection H as <- _. exists err, (requests w), url. left.
    split; [reflexivity | exists resp; exact Hreply].
Qed.

Lemma fetchPlaylistTracks_loop_error :
  forall fuel playlist tracks url w e w',
    fetchPlaylistTracks_loop fuel playlist tracks url w = Returns (Err e) w' ->
    exists cause hist u,
      (e = Wrap cause ("failed to fetch tracks for playlist " ++ Playlist_Name playlist)
       /\ exists resp, transport w hist u = RedirectFailed resp cause)
      \/ (e = Wrap cause "failed to read tracks response"
          /\ transport w hist u = Served {| Body := Err cause |}).
Proof.
  induction fuel as [|fuel IH]; intros playlist tracks url w e w';
    cbn [fetchPlaylistTracks_loop]; destruct (String.eqb url "");
    unfold ret, out_of_fuel; try discriminate.
  unfold bind at 1, client_Get at 1.
  destruct (transport w (requests w) url) as [[[d|err]]|err|resp err] eqn:Hreply;
    cbn [ioutil_ReadAll Body Body_Close]; unfold bind, ret, stop; try discriminate.
  - unfold fmt_Printf, json_Unmarshal_TracksPage.
    destruct (as_TracksPage d) as [page derr].
    intros Hrun. apply IH in Hrun. exact Hrun.
  - intros H. injection H as <- _. exists err, (requests w), url. right.
    split; [reflexivity | exact Hreply].
  - intros H. injection H as <- _. exists err, (requests w), url. left.
    split; [reflexivity | exists resp; exact Hreply].
Qed.

Lemma fetchSavedTracks_loop_error :
  forall fuel tracks url w e w',
    fetchSavedTracks_loop fuel tracks url w = Returns (Err e) w' ->
    exists cause hist u,
      (e = Wrap cause "failed to fetch saved tracks"
       /\ ((exists resp, transport w hist u = RedirectFailed resp cause)
           \/ transport w hist u = Failed cause))
      \/ (e = Wrap cause "failed to read saved tracks response"
          /\ transport w hist u = Served {| Body := Err cause |}).
Proof.
  induction fuel as [|fuel IH]; intros tracks url w e w';
    cbn [fetchSavedTracks_loop]; [discriminate|].
  unfold bind at 1, client_Get at 1.
  destruct (transport w (requests w) url) as [[[d|err]]|err|resp err] eqn:Hreply;
    cbn [ioutil_ReadAll Body Body_Close]; unfold bind, ret, stop.
  - unfold fmt_Printf, json_Unmarshal_TracksPage.
    destruct (as_TracksPage d) as [page derr].
    destruct (Nat.ltb (List.length (TracksPage_Items page)) savedTracks_limit);
      [discriminate|].
    cbn [Body_Close]. unfold ret. intros Hrun. apply IH in Hrun. exact Hrun.
  - intros H. injection H as <- _. exists err, (requests w), url. right.
    split; [reflexivity | exact Hreply].
  - intros H. injection H as <- _. exists err, (requests w), url. left.
    split; [reflexivity | right; exact Hreply].
  - intros H. injection H as <- _. exists err, (requests w), url. left.
    split; [reflexivity | left; exists resp; exact Hreply].
Qed.

(** X19.  An error a fetcher returns is always an error of the service
    in the fetcher's own wrapping: the fetch message around the error of
    a request (one stopped by the redirect policy or, for the saved
    tracks only, one that came back without a response), or the read
    message around the error of reading a body.  The error of decoding a
    page is never among them. *)
Theorem X19_returned_errors_come_from_the_service :
  forall (fuel : nat) (w w' : World) (e : error),
    (fetchPlaylists fuel w = Returns (Err e) w' ->
     exists cause hist u,
       (e = Wrap cause "failed to fetch playlists"
        /\ exists resp, transport w hist u = RedirectFailed resp cause)
       \/ (e = Wrap cause "failed to read playlists response"
           /\ transport w hist u = Served {| Body := Err cause |}))
    /\
    (forall playlist : Playlist,
        fetchPlaylistTracks fuel playlist w = Returns (Err e) w' ->
        exists cause hist u,
          (e = Wrap cause ("failed to fetch tracks for playlist "
                             ++ Playlist_Name playlist)
           /\ exists resp, transport w hist u = RedirectFailed resp cause)
          \/ (e = Wrap cause "failed to read tracks response"
              /\ transport w hist u = Served {| Body := Err cause |}))
    /\
    (fetchSavedTracks fuel w = Returns (Err e) w' ->
     exists cause hist u,
       (e = Wrap cause "failed to fetch saved tracks"
        /\ ((exists resp, transport w hist u = RedirectFailed resp cause)
            \/ transport w hist u = Failed cause))
       \/ (e = Wrap cause "failed to read saved tracks response"
           /\ transport w hist u = Served {| Body := Err cause |})).
Proof.
  intros fuel w w' e. split; [|split].
  - apply fetchPlaylists_loop_error.
  - intros playlist. apply fetchPlaylistTracks_loop_error.
  - apply fetchSavedTracks_loop_error.
Qed.

Lemma X19_witness :
  (exists cause hist u,
      (Wrap (New "unexpected EOF") "failed to read playlists response"
       = Wrap cause "failed to fetch playlists"
       /\ exists resp, truncating_provider hist u = RedirectFailed resp cause)
      \/ (Wrap (New "unexpected EOF") "failed to read playlists response"
          = Wrap cause "failed to read playlists response"
          /\ truncating_provider hist u = Served {| Body := Err cause |}))
  /\ (exists cause hist u,
         (Wrap connection_reset "failed to fetch saved tracks"
          = Wrap cause "failed to fetch saved tracks"
          /\ ((exists resp, flaky_provider hist u = RedirectFailed resp cause)
              \/ flaky_provider hist u = Failed cause))
         \/ (Wrap connection_reset "failed to fetch saved tracks"
             = Wrap cause "failed to read saved tracks response"
             /\ flaky_provider hist u = Served {| Body := Err cause |})).
Proof.
  split.
  - apply (proj1 (X19_returned_errors_come_from_the_service 2 truncating_world
                    (with_request playlists_page2_url
                       (with_output (Text "Fetched 2 playlists\n")
                          (with_request fetchPlaylists_url truncating_world)))
                    (Wrap (New "unexpected EOF") "failed to read playlists response"))).
    reflexivity.
  - apply (proj2 (proj2 (X19_returned_errors_come_from_the_service 2 flaky_world
                    (with_request saved_page2_url
                       (with_output (Text "Fetched 50 saved tracks\n")
                          (with_request fetchSavedTracks_url flaky_world)))
                    (Wrap connection_reset "failed to fetch saved tracks")))).
    reflexivity.
Defined.
